(** * Zen Coding editor actions (zen_actions.js, branch v0.6)

    A shallow embedding of the middleware layer between an editor and
    Zen Coding: the edit-point scanner, the tag-pair navigator, the line
    merger and the HTML comment toggle, with the properties of these
    actions stated by the specification.

    Conventions of the embedding.
    - A JavaScript string is a [list ascii]; the documents considered are
      those whose code units are below 256.
    - A JavaScript number used as an offset is a [Z]: the code relies on
      the value -1 as "not found" and moves carets by subtraction.
    - A [while] loop is a [Fixpoint] on a fuel argument; where the
      loop is not bounded by construction the result is an [option] and
      [None] is "the loop did not finish within the fuel".
    - Editor, Zen Coding core and tag matcher live in other files of the
      project; the editor is an in-memory buffer, the others are fields
      of an environment record. *)

From Stdlib Require Import String Ascii List ZArith Lia Bool Sorted.
Import ListNotations.
Open Scope Z_scope.

Set Implicit Arguments.

(* ================================================================= *)
(** ** JavaScript strings *)

Definition str := list ascii.

Definition lit (s : string) : str := list_ascii_of_string s.

Definition str_eqb (a b : str) : bool :=
  if list_eq_dec ascii_dec a b then true else false.

Definition chr_eqb (a b : option ascii) : bool :=
  match a, b with
  | Some x, Some y => Ascii.eqb x y
  | None, None => true
  | _, _ => false
  end.

Definition js_length (s : str) : Z := Z.of_nat (length s).

Definition LF : ascii := Eval cbv in ascii_of_nat 10.
Definition CR : ascii := Eval cbv in ascii_of_nat 13.
Definition DQUOTE : ascii := Eval cbv in ascii_of_nat 34.
Definition SQUOTE : ascii := Eval cbv in ascii_of_nat 39.

(** [s.charAt(i)]: the one-character string at [i], or the empty string
    ([None]) when [i] is out of range. *)
Definition charAt (s : str) (i : Z) : option ascii :=
  if i <? 0 then None else nth_error s (Z.to_nat i).

Definition clamp (s : str) (i : Z) : nat :=
  Z.to_nat (Z.min (Z.max i 0) (js_length s)).

(** [s.substring(a, b)]: both arguments are clamped to [0, length] and
    swapped when [a > b]. *)
Definition substring (s : str) (a b : Z) : str :=
  let a' := clamp s a in
  let b' := clamp s b in
  let lo := Nat.min a' b' in
  let hi := Nat.max a' b' in
  firstn (hi - lo) (skipn lo s).

(** [s.substr(start, len)]: a negative [start] counts from the end. *)
Definition substr (s : str) (start len : Z) : str :=
  let st := if start <? 0 then Z.max (js_length s + start) 0 else start in
  firstn (Z.to_nat len) (skipn (Z.to_nat st) s).

(** [s.substr(start)] *)
Definition substr_from (s : str) (start : Z) : str :=
  substr s start (js_length s).

Fixpoint index_from (c : ascii) (s : str) (i : Z) : Z :=
  match s with
  | [] => -1
  | x :: t => if Ascii.eqb x c then i else index_from c t (i + 1)
  end.

(** [s.indexOf(c, from)] for a one-character needle. *)
Definition indexOf (s : str) (c : ascii) (from : Z) : Z :=
  let k := clamp s from in
  index_from c (skipn k s) (Z.of_nat k).

Definition lower_char (c : ascii) : ascii :=
  let n := nat_of_ascii c in
  if ((Nat.leb 65 n && Nat.leb n 90)
      || (Nat.leb 192 n && Nat.leb n 222 && negb (Nat.eqb n 215)))%bool
  then ascii_of_nat (n + 32) else c.

(** [s.toLowerCase()] on code units below 256: the letters A to Z and
    the capital letters of Latin-1. *)
Definition toLowerCase (s : str) : str := map lower_char s.

(** [a.join(sep)] *)
Fixpoint join (sep : str) (l : list str) : str :=
  match l with
  | [] => []
  | [x] => x
  | x :: t => x ++ sep ++ join sep t
  end.

(* ================================================================= *)
(** ** Regular expressions

    The fragment of JavaScript regular expressions the actions use:
    anchors, literal characters, the class [\s], sequence, alternation,
    and the greedy quantifiers [\s*], [\s+] and [\s{2,}]. Matching is by
    backtracking, as in the language: the first alternative and the
    longest repetition are tried first. *)

(** [\s] on code units below 256: tab, line feed, vertical tab, form
    feed, carriage return, space and no-break space. *)
Definition is_space (c : ascii) : bool :=
  let n := nat_of_ascii c in
  (Nat.leb 9 n && Nat.leb n 13) || Nat.eqb n 32 || Nat.eqb n 160.

Inductive regex : Type :=
| REps : regex                       (* the empty pattern *)
| RBol : regex                       (* ^ *)
| REol : regex                       (* $ *)
| RChr : ascii -> regex              (* a literal character *)
| RSpaces : nat -> regex             (* \s{n,}, greedy *)
| RSeq : regex -> regex -> regex
| RAlt : regex -> regex -> regex.

Definition orElse {A} (a b : option A) : option A :=
  match a with Some _ => a | None => b end.

Section Matcher.
Variable A : Type.

(** [\s{n,}] at the head of [s]: as many as possible, giving one back
    at a time while the continuation fails. [bol] tells whether [s] is
    the whole input. *)
Fixpoint match_spaces (n : nat) (bol : bool) (s : str)
         (k : bool -> str -> option A) : option A :=
  let stop := match n with O => k bol s | S _ => None end in
  match s with
  | c :: t =>
      if is_space c
      then orElse (match_spaces (Nat.pred n) false t k) stop
      else stop
  | [] => stop
  end.

Fixpoint rmatch (r : regex) (bol : bool) (s : str)
         (k : bool -> str -> option A) : option A :=
  match r with
  | REps => k bol s
  | RBol => if bol then k bol s else None
  | REol => match s with [] => k bol s | _ :: _ => None end
  | RChr c =>
      match s with
      | x :: t => if Ascii.eqb x c then k false t else None
      | [] => None
      end
  | RSpaces n => match_spaces n bol s k
  | RSeq a b => rmatch a bol s (fun bol' s' => rmatch b bol' s' k)
  | RAlt a b => orElse (rmatch a bol s k) (rmatch b bol s k)
  end.
End Matcher.

(** A match attempt at the head of [s]: the input left after the match. *)
Definition match_here (r : regex) (bol : bool) (s : str) : option str :=
  rmatch r bol s (fun _ rest => Some rest).

(** The text consumed by a match that left [rest] of [s]. *)
Definition matched (s rest : str) : str :=
  firstn (length s - length rest) s.

(** The leftmost match: the text before it, the matched text, the text
    after it. *)
Fixpoint exec_from (r : regex) (bol : bool) (before s : str)
  : option (str * str * str) :=
  match match_here r bol s with
  | Some rest => Some (before, matched s rest, rest)
  | None =>
      match s with
      | [] => None
      | c :: t => exec_from r false (before ++ [c]) t
      end
  end.

Definition exec (r : regex) (s : str) : option (str * str * str) :=
  exec_from r true [] s.

(** [r.test(s)] *)
Definition regex_test (r : regex) (s : str) : bool :=
  match exec r s with Some _ => true | None => false end.

(** [s.search(r)] *)
Definition regex_search (r : regex) (s : str) : Z :=
  match exec r s with
  | Some (before, _, _) => js_length before
  | None => -1
  end.

(** [s.replace(r, f)] for [r] without the [g] flag: only the leftmost
    match is replaced; [f] receives the matched text. *)
Definition replace (r : regex) (f : str -> str) (s : str) : str :=
  match exec r s with
  | Some (before, m, rest) => before ++ f m ++ rest
  | None => s
  end.

(** [s.replace(r, by)] for [r] with the [g] flag: every match, left to
    right, each search resuming where the previous match ended (one
    character later after an empty match). [skip] counts the characters
    of the current match still to be dropped. *)
Fixpoint replace_all_from (r : regex) (by_ : str) (bol : bool)
         (skip : nat) (s : str) : str :=
  match s with
  | [] =>
      match skip, match_here r bol [] with
      | O, Some _ => by_
      | _, _ => []
      end
  | c :: t =>
      match skip with
      | S n => replace_all_from r by_ false n t
      | O =>
          match match_here r bol s with
          | Some rest =>
              match (length s - length rest)%nat with
              | O => by_ ++ c :: replace_all_from r by_ false 0 t
              | S n => by_ ++ replace_all_from r by_ false n t
              end
          | None => c :: replace_all_from r by_ false 0 t
          end
      end
  end.

Definition replace_all (r : regex) (by_ : str) (s : str) : str :=
  replace_all_from r by_ true 0 s.

(** A string used as a pattern, every character standing for itself. *)
Fixpoint regex_of_literal (p : str) : regex :=
  match p with
  | [] => REps
  | [c] => RChr c
  | c :: t => RSeq (RChr c) (regex_of_literal t)
  end.

(* ================================================================= *)
(** ** Collaborators *)

(** A half-open range of offsets, the object [{start, end}]. *)
Record range : Type := mkRange { r_start : Z; r_end : Z }.

(** The part of a matcher tag object the actions read. *)
Record tag : Type := mkTag { t_start : Z; t_end : Z }.

(** [HTMLPairMatcher.last_match]: the tags of the latest match. *)
Record match_cache : Type := mkCache {
  opening_tag : option tag;
  closing_tag : option tag
}.

(** The mutating calls an editor receives. *)
Inductive editor_call : Type :=
| ReplaceContent (value : str) (start end_ : Z)
| CreateSelection (start end_ : Z)
| SetCaretPos (pos : Z).

(** Modelled from the spec: the editor object (zen_editor.js) is not
    part of the sources; section 6 lists its operations. It is an
    in-memory buffer holding the text, the selection, the caret and the
    syntax name, with the mutating calls it received, oldest first.
    Selection and caret are independent fields, set only by
    [createSelection] and [setCaretPos]. *)
Record zen_editor : Type := mkEditor {
  ed_content : str;
  ed_selection : range;
  ed_caret : Z;
  ed_syntax : str;
  ed_calls : list editor_call
}.

(** Modelled from the spec: the reading operations of the editor
    (zen_editor.js, not part of the sources) return the fields of the
    buffer. *)
Definition getContent (e : zen_editor) : str := ed_content e.
Definition getSelectionRange (e : zen_editor) : range := ed_selection e.
Definition getCaretPos (e : zen_editor) : Z := ed_caret e.
Definition getSyntax (e : zen_editor) : str := ed_syntax e.

(** Modelled from the spec: [setCaretPos(offset)] of the editor
    (zen_editor.js, not part of the sources) sets the caret. *)
Definition setCaretPos (pos : Z) (e : zen_editor) : zen_editor :=
  mkEditor (ed_content e) (ed_selection e) pos (ed_syntax e)
           (ed_calls e ++ [SetCaretPos pos]).

(** Modelled from the spec: [createSelection(start, end)] of the editor
    (zen_editor.js, not part of the sources) sets the selection. *)
Definition createSelection (a b : Z) (e : zen_editor) : zen_editor :=
  mkEditor (ed_content e) (mkRange a b) (ed_caret e) (ed_syntax e)
           (ed_calls e ++ [CreateSelection a b]).

(** Modelled from the spec: [replaceContent(text, start, end)] of the
    editor (zen_editor.js, not part of the sources) "replaces a range":
    the text of [start, end) gives way to [value]; selection and caret
    stay as they are. *)
Definition replaceContent (value : str) (a b : Z) (e : zen_editor)
  : zen_editor :=
  let c := ed_content e in
  mkEditor (substring c 0 a ++ value ++ substring c b (js_length c))
           (ed_selection e) (ed_caret e) (ed_syntax e)
           (ed_calls e ++ [ReplaceContent value a b]).

Definition is_newline (c : ascii) : bool :=
  Ascii.eqb c LF || Ascii.eqb c CR.

Fixpoint take_line (s : str) : str :=
  match s with
  | [] => []
  | c :: t => if is_newline c then [] else c :: take_line t
  end.

(** Modelled from the spec: [getCurrentLine()] of the editor
    (zen_editor.js, not part of the sources) is the line of the text
    the caret is in, without its line terminator. *)
Definition getCurrentLine (e : zen_editor) : str :=
  let c := ed_content e in
  let k := clamp c (ed_caret e) in
  rev (take_line (rev (firstn k c))) ++ take_line (skipn k c).

(** Modelled from the spec: [zen_coding.splitByLines] is not part of
    the sources; it "splits text into lines on any newline convention":
    a line ends at CR LF, at LF or at CR. [cur] is the line being read. *)
Fixpoint split_lines (cur s : str) : list str :=
  match s with
  | [] => [cur]
  | c :: t =>
      if Ascii.eqb c CR then
        match t with
        | d :: t' =>
            if Ascii.eqb d LF then cur :: split_lines [] t'
            else cur :: split_lines [] t
        | [] => cur :: split_lines [] t
        end
      else if Ascii.eqb c LF then cur :: split_lines [] t
      else split_lines (cur ++ [c]) t
  end.

Definition spec_splitByLines (s : str) : list str := split_lines [] s.

(** What the actions ask of the Zen Coding core (zen_coding.js) and of
    the tag matcher (html_matcher.js), which are not part of the
    sources. [HTMLPairMatcher] returns the range it found, if any, and
    the value it leaves in [HTMLPairMatcher.last_match]. *)
Record zen_env : Type := mkEnv {
  splitByLines : str -> list str;
  getNewline : str;
  HTMLPairMatcher : str -> Z -> match_cache -> option (Z * Z) * match_cache;
  HTMLPairMatcher_find : str -> Z -> Z * Z;
  HTMLPairMatcher_getTags : str -> Z -> option (option tag * option tag)
}.

(** The state the actions run in: the editor and the matcher's cache. *)
Record state : Type := mkState {
  editor : zen_editor;
  last_match : match_cache
}.

Definition with_editor (st : state) (e : zen_editor) : state :=
  mkState e (last_match st).

(* ================================================================= *)
(** ** Text utilities *)

(** [/^(\s+)/] *)
Definition re_padding : regex := RSeq RBol (RSpaces 1).

(** [getCurrentLinePadding]: the leading whitespace of the current line.*)
Definition getCurrentLinePadding (e : zen_editor) : str :=
  match exec re_padding (getCurrentLine e) with
  | Some (_, m, _) => m
  | None => []
  end.

(** One turn of the loop of [unindent]. The padding is used as a
    pattern; it consists of whitespace, which stands for itself. *)
Definition unindent_line (pad line : str) : str :=
  if regex_search (regex_of_literal pad) line =? 0
  then substr_from line (js_length pad)
  else line.

Definition unindent (env : zen_env) (e : zen_editor) (text : str) : str :=
  let pad := getCurrentLinePadding e in
  let lines := splitByLines env text in
  join (getNewline env) (map (unindent_line pad) lines).

(* ================================================================= *)
(** ** Edit points *)

(** [/^\s+$/] *)
Definition re_empty_line : regex := RSeq RBol (RSeq (RSpaces 1) REol).

(** The loop of [getLine]: [start] moves left until it is on a line
    terminator or below 0. From [ix] that takes at most [ix + 1] turns. *)
Fixpoint getLine_start (content : str) (fuel : nat) (start : Z) : Z :=
  match fuel with
  | O => start
  | S k =>
      if start >=? 0 then
        let c := charAt content start in
        if chr_eqb c (Some LF) || chr_eqb c (Some CR) then start
        else getLine_start content k (start - 1)
      else start
  end.

Definition getLine (content : str) (ix : Z) : str :=
  let start := getLine_start content (Z.to_nat (ix + 1)) ix in
  substring content start ix.

(** The [switch] of [findNewEditPoint] at [cur_point]: the insertion
    point found there, or -1. *)
Definition scan_point (content : str) (cur_point : Z) : Z :=
  let cur_char := charAt content cur_point in
  let next_char := charAt content (cur_point + 1) in
  let prev_char := charAt content (cur_point - 1) in
  if chr_eqb cur_char (Some DQUOTE) || chr_eqb cur_char (Some SQUOTE) then
    if chr_eqb next_char cur_char && chr_eqb prev_char (Some "="%char)
    then cur_point + 1 else -1
  else if chr_eqb cur_char (Some ">"%char) then
    if chr_eqb next_char (Some "<"%char) then cur_point + 1 else -1
  else if chr_eqb cur_char (Some LF) || chr_eqb cur_char (Some CR) then
    if regex_test re_empty_line (getLine content (cur_point - 1))
    then cur_point else -1
  else -1.

(** The [while] loop of [findNewEditPoint]. *)
Fixpoint edit_point_loop (content : str) (inc : Z) (fuel : nat)
         (cur_point : Z) : option Z :=
  if (cur_point <? js_length content) && (cur_point >? 0) then
    match fuel with
    | O => None
    | S k =>
        let cur_point := cur_point + inc in
        let next_point := scan_point content cur_point in
        if negb (next_point =? -1) then Some next_point
        else edit_point_loop content inc k cur_point
    end
  else Some (-1).

(** [x || d] for an optional number: [d] when [x] is missing or 0. *)
Definition num_or (x : option Z) (d : Z) : Z :=
  match x with
  | Some v => if v =? 0 then d else v
  | None => d
  end.

Definition findNewEditPoint (e : zen_editor) (inc offset : option Z)
  : option Z :=
  let inc := num_or inc 1 in
  let offset := num_or offset 0 in
  let cur_point := getCaretPos e + offset in
  let content := getContent e in
  edit_point_loop content inc (length content) cur_point.

Definition prevEditPoint (e : zen_editor) : option zen_editor :=
  let cur_pos := getCaretPos e in
  match findNewEditPoint e (Some (-1)) None with
  | None => None
  | Some new_point =>
      match (if new_point =? cur_pos
             then findNewEditPoint e (Some (-1)) (Some (-2))
             else Some new_point) with
      | None => None
      | Some new_point =>
          if negb (new_point =? -1) then Some (setCaretPos new_point e)
          else Some e
      end
  end.

Definition nextEditPoint (e : zen_editor) : option zen_editor :=
  match findNewEditPoint e (Some 1) None with
  | None => None
  | Some new_point =>
      if negb (new_point =? -1) then Some (setCaretPos new_point e)
      else Some e
  end.

(** The offsets that [n] calls of [nextEditPoint] in a row move the
    caret to; the list ends at the first call that finds no edit
    point. *)
Fixpoint forward_points (n : nat) (e : zen_editor) : list Z :=
  match n with
  | O => []
  | S k =>
      match findNewEditPoint e (Some 1) None with
      | Some p =>
          if p =? -1 then [] else p :: forward_points k (setCaretPos p e)
      | None => []
      end
  end.

(* ================================================================= *)
(** ** Tag pairs *)

(** [(direction || 'out').toLowerCase()] *)
Definition direction_or_out (direction : option str) : str :=
  toLowerCase (match direction with
               | Some [] | None => lit "out"
               | Some d => d
               end).

Definition select_range (st : state) (cache : match_cache)
           (rng : option (Z * Z)) : bool * state :=
  match rng with
  | Some (a, b) =>
      if negb (a =? -1)
      then (true, mkState (createSelection a b (editor st)) cache)
      else (false, mkState (editor st) cache)
  | None => (false, mkState (editor st) cache)
  end.

Definition matchPair (env : zen_env) (direction : option str) (st : state)
  : bool * state :=
  let direction := direction_or_out direction in
  let e := editor st in
  let rng := getSelectionRange e in
  let cursor := r_end rng in
  let range_start := r_start rng in
  let range_end := r_end rng in
  let content := getContent e in
  let old_close_tag := closing_tag (last_match st) in
  match opening_tag (last_match st) with
  | Some old_open_tag =>
      if str_eqb direction (lit "in") && negb (range_start =? range_end) then
        match old_close_tag with
        | None => (false, st)
        | Some old_close_tag =>
            if t_start old_open_tag =? range_start then
              if chr_eqb (charAt content (t_end old_open_tag)) (Some "<"%char)
              then
                let _r := HTMLPairMatcher_find env content
                                               (t_end old_open_tag + 1) in
                if (fst _r =? t_end old_open_tag)
                   && (snd _r =? t_start old_close_tag)
                then
                  let (r, c) := HTMLPairMatcher env content
                                  (t_end old_open_tag + 1) (last_match st) in
                  select_range st c r
                else select_range st (last_match st)
                       (Some (t_end old_open_tag, t_start old_close_tag))
              else select_range st (last_match st)
                     (Some (t_end old_open_tag, t_start old_close_tag))
            else
              let new_cursor :=
                indexOf (substring content 0 (t_start old_close_tag))
                        "<"%char (t_end old_open_tag) in
              let search_pos :=
                if negb (new_cursor =? -1) then new_cursor + 1
                else t_end old_open_tag in
              let (r, c) := HTMLPairMatcher env content search_pos
                              (last_match st) in
              select_range st c r
        end
      else
        let (r, c) := HTMLPairMatcher env content cursor (last_match st) in
        select_range st c r
  | None =>
      let (r, c) := HTMLPairMatcher env content cursor (last_match st) in
      select_range st c r
  end.

(* ================================================================= *)
(** ** Merging lines *)

(** [/^\s+/] *)
Definition re_leading_space : regex := RSeq RBol (RSpaces 1).

(** [/\s{2,}/] *)
Definition re_space_run : regex := RSpaces 2.

(** The loop [for (var i = 1; i < lines.length; i++)] of [mergeLines]. *)
Definition strip_continuation_lines (lines : list str) : list str :=
  match lines with
  | [] => []
  | first :: others =>
      first :: map (replace re_leading_space (fun _ => [])) others
  end.

(** The text [mergeLines] puts in place of [text]. *)
Definition merge_text (env : zen_env) (text : str) : str :=
  let lines := strip_continuation_lines (splitByLines env text) in
  replace re_space_run (fun _ => lit " ") (join [] lines).

(** The range [mergeLines] works on: the selection, or, when it is
    empty, the pair the tag matcher finds at the caret. *)
Definition merge_selection (env : zen_env) (st : state)
  : range * match_cache :=
  let e := editor st in
  let selection := getSelectionRange e in
  if r_start selection =? r_end selection then
    match HTMLPairMatcher env (getContent e) (getCaretPos e)
                          (last_match st) with
    | (Some (a, b), c) => (mkRange a b, c)
    | (None, c) => (selection, c)
    end
  else (selection, last_match st).

Definition mergeLines (env : zen_env) (st : state) : state :=
  let e := editor st in
  let (selection, cache) := merge_selection env st in
  if negb (r_start selection =? r_end selection) then
    let text := substring (getContent e) (r_start selection)
                          (r_end selection) in
    let text := merge_text env text in
    let e := replaceContent text (r_start selection) (r_end selection) e in
    let e := createSelection (r_start selection)
                             (r_start selection + js_length text) e in
    mkState e cache
  else mkState e cache.

(* ================================================================= *)
(** ** Toggling comments *)

(** [/^<!--\s*/] *)
Definition re_comment_open : regex :=
  RSeq RBol (RSeq (RChr "<") (RSeq (RChr "!") (RSeq (RChr "-")
       (RSeq (RChr "-") (RSpaces 0))))).

(** [/\s*-->$/] *)
Definition re_comment_close : regex :=
  RSeq (RSpaces 0) (RSeq (RChr "-") (RSeq (RChr "-")
       (RSeq (RChr ">") REol))).

(** [/<!--\s+|\s+-->/g] *)
Definition re_inner_markers : regex :=
  RAlt (RSeq (RChr "<") (RSeq (RChr "!") (RSeq (RChr "-")
             (RSeq (RChr "-") (RSpaces 1)))))
       (RSeq (RSpaces 1) (RSeq (RChr "-") (RSeq (RChr "-") (RChr ">")))).

(** [removeComment]: the text without its comment markers, and the
    caret position, which the callback of the first replacement moves
    left by the length of what that replacement removes. *)
Definition removeComment (s : str) (caret_pos : Z) : str * Z :=
  let '(s, caret_pos) :=
    match exec re_comment_open s with
    | Some (before, m, rest) => (before ++ rest, caret_pos - js_length m)
    | None => (s, caret_pos)
    end in
  (replace re_comment_close (fun _ => []) s, caret_pos).

Definition hasMatch (content s : str) (start : Z) : bool :=
  str_eqb (substr content start (js_length s)) s.

(** The loop [while (from--)] looking left for a comment start. It
    does not end when [from] is negative. *)
Fixpoint comment_start_loop (content : str) (fuel : nat) (from : Z)
  : option Z :=
  match fuel with
  | O => None
  | S k =>
      if from =? 0 then Some (-1)
      else
        let from := from - 1 in
        if chr_eqb (charAt content from) (Some "<"%char)
           && hasMatch content (lit "<!--") from
        then Some from
        else comment_start_loop content k from
  end.

(** The loop [while (content_len >= from++)] looking right for a
    comment end. *)
Fixpoint comment_end_loop (content : str) (fuel : nat) (from : Z)
  : option Z :=
  match fuel with
  | O => None
  | S k =>
      if js_length content >=? from then
        let from := from + 1 in
        if chr_eqb (charAt content from) (Some "-"%char)
           && hasMatch content (lit "-->") from
        then Some (from + 3)
        else comment_end_loop content k from
      else Some (-1)
  end.

(** The comment around offset [start], as the two searches find it:
    [comment_start] and [comment_end], each -1 when not found. *)
Definition find_comment (content : str) (start : Z) : option (Z * Z) :=
  match comment_start_loop content (S (Z.to_nat start)) start with
  | None => None
  | Some comment_start =>
      if negb (comment_start =? -1) then
        match comment_end_loop content
                (Z.to_nat (js_length content - comment_start) + 2)
                comment_start with
        | None => None
        | Some comment_end => Some (comment_start, comment_end)
        end
      else Some (comment_start, -1)
  end.

(** The end of [toggleHTMLComment]: the editor content is replaced and
    the caret placed. *)
Definition put_comment (env : zen_env) (st : state) (new_content : str)
           (rng : range) (caret_pos : Z) : bool * state :=
  let e := setCaretPos (r_start rng) (editor st) in
  let e := replaceContent (unindent env e new_content)
                          (r_start rng) (r_end rng) e in
  let e := setCaretPos caret_pos e in
  (true, with_editor st e).

Definition toggleHTMLComment (env : zen_env) (st : state)
  : option (bool * state) :=
  let e := editor st in
  let rng := getSelectionRange e in
  let content := getContent e in
  let caret_pos := getCaretPos e in
  let rng :=
    if r_start rng =? r_end rng then
      match HTMLPairMatcher_getTags env content (getCaretPos e) with
      | Some (Some t0, t1) =>
          mkRange (t_start t0)
                  (match t1 with Some t => t_end t | None => t_end t0 end)
      | _ => rng
      end
    else rng in
  if negb (r_start rng =? r_end rng) then
    if hasMatch content (lit "<!--") (r_start rng) then
      let (new_content, caret_pos) :=
        removeComment (substring content (r_start rng) (r_end rng))
                      caret_pos in
      Some (put_comment env st new_content rng caret_pos)
    else
      match find_comment content (r_start rng) with
      | None => None
      | Some (comment_start, comment_end) =>
          if (comment_start <? r_start rng) && (comment_end >? r_end rng)
          then
            let rng := mkRange comment_start comment_end in
            let (new_content, caret_pos) :=
              removeComment (substring content comment_start comment_end)
                            caret_pos in
            Some (put_comment env st new_content rng caret_pos)
          else
            let new_content :=
              lit "<!-- "
              ++ replace_all re_inner_markers []
                   (substring content (r_start rng) (r_end rng))
              ++ lit " -->" in
            Some (put_comment env st new_content rng (caret_pos + 5))
      end
  else Some (false, st).

(** [toggleComment]: the [switch] has no default case; outside the
    three syntaxes the function returns [undefined] ([None]). *)
Definition toggleComment (env : zen_env) (st : state)
  : option (option bool * state) :=
  let syntax := getSyntax (editor st) in
  if str_eqb syntax (lit "html") || str_eqb syntax (lit "xml")
     || str_eqb syntax (lit "xhtml")
  then
    match toggleHTMLComment env st with
    | Some (b, st') => Some (Some b, st')
    | None => None
    end
  else Some (None, st).

(* ================================================================= *)
(** ** Registered actions *)

(** The functions zen_actions.js declares. *)
Inductive action_fn : Type :=
| fn_findAbbreviation | fn_expandAbbreviation | fn_expandAbbreviationWithTab
| fn_matchPair | fn_wrapWithAbbreviation | fn_unindent
| fn_getCurrentLinePadding | fn_findNewEditPoint | fn_prevEditPoint
| fn_nextEditPoint | fn_insertFormattedNewline | fn_selectLine
| fn_goToMatchingPair | fn_mergeLines | fn_toggleComment
| fn_toggleHTMLComment.

(** The functions of this file each function calls. *)
Definition callees (f : action_fn) : list action_fn :=
  match f with
  | fn_expandAbbreviation => [fn_findAbbreviation]
  | fn_expandAbbreviationWithTab => [fn_expandAbbreviation]
  | fn_wrapWithAbbreviation => [fn_unindent]
  | fn_unindent => [fn_getCurrentLinePadding]
  | fn_prevEditPoint => [fn_findNewEditPoint]
  | fn_nextEditPoint => [fn_findNewEditPoint]
  | fn_toggleComment => [fn_toggleHTMLComment]
  | fn_toggleHTMLComment => [fn_unindent]
  | _ => []
  end.

(** The calls [zen_coding.registerAction(name, fn)] that end the file,
    in order. *)
Definition registered_actions : list (str * action_fn) :=
  [ (lit "expandAbbreviation", fn_expandAbbreviation);
    (lit "expandAbbreviationWithTab", fn_expandAbbreviationWithTab);
    (lit "matchPair", fn_matchPair);
    (lit "wrapWithAbbreviation", fn_wrapWithAbbreviation);
    (lit "prevEditPoint", fn_prevEditPoint);
    (lit "nextEditPoint", fn_nextEditPoint);
    (lit "insertFormattedNewline", fn_insertFormattedNewline);
    (lit "selectLine", fn_selectLine);
    (lit "goToMatchingPair", fn_goToMatchingPair);
    (lit "mergeLines", fn_toggleComment) ].

(** The function a name is registered for; a later registration of the
    same name replaces an earlier one. *)
Fixpoint lookup_action (name : str) (l : list (str * action_fn))
  : option action_fn :=
  match l with
  | [] => None
  | (n, f) :: t =>
      match lookup_action name t with
      | Some g => Some g
      | None => if str_eqb n name then Some f else None
      end
  end.

(** The functions reached from [f] through at most [n] calls. *)
Fixpoint reached (n : nat) (f : action_fn) : list action_fn :=
  match n with
  | O => [f]
  | S k => f :: flat_map (reached k) (callees f)
  end.

(* ================================================================= *)
(** ** Abbreviations, wrapping, new lines and pair jumps *)

(** A matcher tag object with its [type] field. *)
Record tag_info : Type := mkTagInfo {
  ti_type : str;
  ti_start : Z;
  ti_end : Z
}.

(** What the remaining actions ask of the Zen Coding core
    (zen_coding.js), the editor (zen_editor.js) and the tag matcher
    (html_matcher.js), which are not part of the sources. A result that
    may be [null] or [undefined] is an [option]. [getTags_info] is
    [HTMLPairMatcher.getTags] with the [type] field of the tags. *)
Record zen_host : Type := mkHost {
  zc_extractAbbreviation : str -> option str;
  zc_expandAbbreviation : str -> str -> str -> option str;
  zc_wrapWithAbbreviation : str -> str -> str -> str -> option str;
  zc_getVariable : str -> str;
  getProfileName : zen_editor -> str;
  getTags_info : str -> Z -> option (option tag_info * option tag_info)
}.

(** A string in a condition: [null], [undefined] and the empty string
    count as false. *)
Definition truthy (x : option str) : bool :=
  match x with
  | Some (_ :: _) => true
  | _ => false
  end.

(** [x || d] for an optional string. *)
Definition str_or (x : option str) (d : str) : str :=
  match x with
  | Some (c :: t) => c :: t
  | _ => d
  end.

(** Modelled from the spec: [getCurrentLineRange()] of the editor
    (zen_editor.js, not part of the sources) is the range of the line
    the caret is in, without its line terminator. *)
Definition getCurrentLineRange (e : zen_editor) : range :=
  let c := ed_content e in
  let k := clamp c (ed_caret e) in
  mkRange (Z.of_nat (k - length (take_line (rev (firstn k c)))))
          (Z.of_nat (k + length (take_line (skipn k c)))).

Definition findAbbreviation (host : zen_host) (e : zen_editor)
  : option str :=
  let rng := getSelectionRange e in
  if negb (r_start rng =? r_end rng) then
    Some (substring (getContent e) (r_start rng) (r_end rng))
  else
    let cur_line := getCurrentLineRange e in
    zc_extractAbbreviation host
      (substring (getContent e) (r_start cur_line) (r_start rng)).

Definition expandAbbreviation (host : zen_host) (e : zen_editor)
           (syntax profile_name : option str) : bool * zen_editor :=
  let syntax := str_or syntax (getSyntax e) in
  let profile_name := str_or profile_name (getProfileName host e) in
  let caret_pos := r_end (getSelectionRange e) in
  let abbr := findAbbreviation host e in
  if truthy abbr then
    let abbr := str_or abbr [] in
    let content := zc_expandAbbreviation host abbr syntax profile_name in
    if truthy content then
      (true,
       replaceContent (str_or content [])
                      (caret_pos - js_length abbr) caret_pos e)
    else (false, e)
  else (false, e).

(** [replaceContent(value, start)] without [end]: section 6 of the
    specification lets [end] default to [start]. *)
Definition expandAbbreviationWithTab (host : zen_host) (e : zen_editor)
           (syntax profile_name : option str) : zen_editor :=
  let syntax := str_or syntax (getSyntax e) in
  let profile_name := str_or profile_name (getProfileName host e) in
  let (expanded, e) :=
    expandAbbreviation host e (Some syntax) (Some profile_name) in
  if negb expanded then
    replaceContent (zc_getVariable host (lit "indentation"))
                   (getCaretPos e) (getCaretPos e) e
  else e.

(** [/\s|\n|\r/], used with [test] only, which asks whether there is a
    match: for that, [\s] and [\s+] are the same pattern. *)
Definition re_space : regex :=
  RAlt (RSpaces 1) (RAlt (RChr LF) (RChr CR)).

(** [isSpace(ch)] for a [ch] that [charAt] returned. *)
Definition isSpace (ch : option ascii) : bool :=
  regex_test re_space (match ch with Some c => [c] | None => [] end).

(** The loop [while (start_offset < end_offset)] that skips the
    whitespace at the start of the range; it takes at most
    [end_offset - start_offset] turns. *)
Fixpoint narrow_start (content : str) (fuel : nat)
         (start_offset end_offset : Z) : Z :=
  match fuel with
  | O => start_offset
  | S k =>
      if start_offset <? end_offset then
        if negb (isSpace (charAt content start_offset)) then start_offset
        else narrow_start content k (start_offset + 1) end_offset
      else start_offset
  end.

(** The loop [while (end_offset > start_offset)] that skips the
    whitespace at the end of the range. *)
Fixpoint narrow_end (content : str) (fuel : nat)
         (start_offset end_offset : Z) : Z :=
  match fuel with
  | O => end_offset
  | S k =>
      if end_offset >? start_offset then
        let end_offset := end_offset - 1 in
        if negb (isSpace (charAt content end_offset)) then end_offset + 1
        else narrow_end content k start_offset end_offset
      else end_offset
  end.

(** The range [a, b) narrowed to its first and last character that is
    not whitespace. *)
Definition narrow_range (content : str) (a b : Z) : Z * Z :=
  let start_offset := narrow_start content (Z.to_nat (b - a)) a b in
  let end_offset :=
    narrow_end content (Z.to_nat (b - start_offset)) start_offset b in
  (start_offset, end_offset).

(** The end of [wrapWithAbbreviation], from [var new_content] on. *)
Definition wrap_range (env : zen_env) (host : zen_host) (abbr : str)
           (syntax profile_name : str) (e : zen_editor)
           (start_offset end_offset : Z) : zen_editor :=
  let new_content := substring (getContent e) start_offset end_offset in
  let result :=
    zc_wrapWithAbbreviation host abbr (unindent env e new_content)
                            syntax profile_name in
  if truthy result then
    let e := setCaretPos end_offset e in
    replaceContent (str_or result []) start_offset end_offset e
  else e.

Definition wrapWithAbbreviation (env : zen_env) (host : zen_host)
           (abbr syntax profile_name : option str) (st : state) : state :=
  let e := editor st in
  let syntax := str_or syntax (getSyntax e) in
  let profile_name := str_or profile_name (getProfileName host e) in
  let rng := getSelectionRange e in
  let content := getContent e in
  if negb (truthy abbr) then st
  else
    let abbr := str_or abbr [] in
    if r_start rng =? r_end rng then
      match HTMLPairMatcher env content (r_start rng) (last_match st) with
      | (Some (a, b), cache) =>
          if a =? -1 then mkState e cache
          else
            let (start_offset, end_offset) := narrow_range content a b in
            mkState (wrap_range env host abbr syntax profile_name e
                                start_offset end_offset) cache
      | (None, cache) => mkState e cache
      end
    else
      mkState (wrap_range env host abbr syntax profile_name e
                          (r_start rng) (r_end rng))
              (last_match st).

Definition TAB : ascii := Eval cbv in ascii_of_nat 9.

(** [insertFormattedNewline]. Reading [pair[0]] of a [null] result of
    [getTags] raises a TypeError: the result is [None] then. *)
Definition insertFormattedNewline (host : zen_host) (mode : option str)
           (e : zen_editor) : option zen_editor :=
  let mode := str_or mode (lit "html") in
  let caret_pos := getCaretPos e in
  let insert_nl := replaceContent [LF] caret_pos caret_pos e in
  if str_eqb mode (lit "html") then
    match getTags_info host (getContent e) (getCaretPos e) with
    | None => None
    | Some (Some t0, Some t1) =>
        if str_eqb (ti_type t0) (lit "tag")
           && (ti_end t0 =? caret_pos) && (ti_start t1 =? caret_pos)
        then Some (replaceContent [LF; TAB; "|"%char; LF]
                                  caret_pos caret_pos e)
        else Some insert_nl
    | Some _ => Some insert_nl
    end
  else Some insert_nl.

Definition selectLine (e : zen_editor) : zen_editor :=
  let rng := getCurrentLineRange e in
  createSelection (r_start rng) (r_end rng) e.

(** [goToMatchingPair]. After a match with a closing tag, reading
    [open_tag.start] of a missing opening tag raises a TypeError: the
    result is [None] then. *)
Definition goToMatchingPair (env : zen_env) (st : state) : option state :=
  let e := editor st in
  let content := getContent e in
  let caret_pos := getCaretPos e in
  let caret_pos :=
    if chr_eqb (charAt content caret_pos) (Some "<"%char)
    then caret_pos + 1 else caret_pos in
  let (rng, cache) := HTMLPairMatcher env content caret_pos
                                      (last_match st) in
  match rng with
  | Some (a, _) =>
      if negb (a =? -1) then
        match closing_tag cache with
        | Some close_tag =>
            match opening_tag cache with
            | None => None
            | Some open_tag =>
                if (t_start open_tag <=? caret_pos)
                   && (t_end open_tag >=? caret_pos)
                then Some (mkState (setCaretPos (t_start close_tag) e)
                                   cache)
                else if (t_start close_tag <=? caret_pos)
                        && (t_end close_tag >=? caret_pos)
                then Some (mkState (setCaretPos (t_start open_tag) e)
                                   cache)
                else Some (mkState e cache)
            end
        | None => Some (mkState e cache)
        end
      else Some (mkState e cache)
  | None => Some (mkState e cache)
  end.

(* ================================================================= *)
(** ** Environments and editors for the examples *)

(** A tag matcher for text without tags: it never finds a pair. *)
Definition no_tags_env : zen_env :=
  mkEnv spec_splitByLines [LF]
        (fun _ _ _ => (Some (-1, -1), mkCache None None))
        (fun _ _ => (-1, -1))
        (fun _ _ => Some (None, None)).

(** A tag matcher that knows the document [<p><br/></p>]: inside the
    unary tag [<br/>], offsets 3 to 8, it reports that tag alone. *)
Definition br_document : str := lit "<p><br/></p>".

Definition br_env : zen_env :=
  mkEnv spec_splitByLines [LF]
        (fun content ix _ =>
           if str_eqb content br_document && (3 <=? ix) && (ix <=? 8)
           then (Some (3, 8), mkCache (Some (mkTag 3 8)) None)
           else (Some (-1, -1), mkCache None None))
        (fun content ix =>
           if str_eqb content br_document && (3 <=? ix) && (ix <=? 8)
           then (3, 8) else (-1, -1))
        (fun content ix =>
           if str_eqb content br_document && (3 <=? ix) && (ix <=? 8)
           then Some (Some (mkTag 3 8), None) else Some (None, None)).

(** An editor on [content] with the selection [a, b), the caret at
    [caret], and no call received yet. *)
Definition editor_on (syntax content : string) (a b caret : Z)
  : zen_editor :=
  mkEditor (lit content) (mkRange a b) caret (lit syntax) [].

Definition state_on (syntax content : string) (a b caret : Z) : state :=
  mkState (editor_on syntax content a b caret) (mkCache None None).

Fixpoint take_word (s : str) : str :=
  match s with
  | [] => []
  | c :: t => if is_space c then [] else c :: take_word t
  end.

(** A stand-in for the Zen Coding core: the abbreviation is the last
    word of the text, [abbr] expands to [<abbr></abbr>] and wraps a
    text as [<abbr>text</abbr>], the indentation is a tab. Its tag
    matcher knows the document [<p></p>]. *)
Definition demo_host : zen_host :=
  mkHost (fun s => Some (rev (take_word (rev s))))
         (fun abbr _ _ =>
            Some (lit "<" ++ abbr ++ lit "></" ++ abbr ++ lit ">"))
         (fun abbr text _ _ =>
            Some (lit "<" ++ abbr ++ lit ">" ++ text
                  ++ lit "</" ++ abbr ++ lit ">"))
         (fun _ => [TAB])
         (fun _ => lit "xhtml")
         (fun content ix =>
            if str_eqb content (lit "<p></p>") && (0 <=? ix) && (ix <=? 7)
            then Some (Some (mkTagInfo (lit "tag") 0 3),
                       Some (mkTagInfo (lit "tag") 3 7))
            else Some (None, None)).

(** A tag matcher that knows the document [<p> x </p>]: opening tag
    at 0 to 3, closing tag at 6 to 10. Inside the pair it reports the
    content of the pair, on a tag the whole pair. *)
Definition p_document : str := lit "<p> x </p>".

Definition p_env : zen_env :=
  mkEnv spec_splitByLines [LF]
        (fun content ix _ =>
           if str_eqb content p_document && (0 <=? ix) && (ix <=? 10)
           then (Some (if (3 <=? ix) && (ix <=? 6) then (3, 6)
                       else (0, 10)),
                 mkCache (Some (mkTag 0 3)) (Some (mkTag 6 10)))
           else (Some (-1, -1), mkCache None None))
        (fun _ _ => (-1, -1))
        (fun _ _ => Some (None, None)).

(** A tag matcher that knows the document [<!-- a <b>x</b> c --> d]:
    on the pair [<b>x</b>], offsets 7 to 15, it reports the opening tag
    at 7 to 10 and the closing tag at 11 to 15. *)
Definition b_document : str := lit "<!-- a <b>x</b> c --> d".

Definition b_env : zen_env :=
  mkEnv spec_splitByLines [LF]
        (fun content ix _ =>
           if str_eqb content b_document && (7 <=? ix) && (ix <=? 15)
           then (Some (7, 15),
                 mkCache (Some (mkTag 7 10)) (Some (mkTag 11 15)))
           else (Some (-1, -1), mkCache None None))
        (fun _ _ => (-1, -1))
        (fun content ix =>
           if str_eqb content b_document && (7 <=? ix) && (ix <=? 15)
           then Some (Some (mkTag 7 10), Some (mkTag 11 15))
           else Some (None, None)).



(* ================================================================= *)
(** ** Predicates of the statements *)

(** The syntaxes [toggleComment] handles. *)
Definition markup_syntax (syntax : str) : Prop :=
  syntax = lit "html" \/ syntax = lit "xml" \/ syntax = lit "xhtml".

(** The number of turns the loop of [findNewEditPoint] still has room
    for at [cur_point]. *)
Definition turns_left (content : str) (inc cur_point : Z) : Z :=
  if inc >? 0 then js_length content - cur_point else cur_point.

(** What a result [r] of [findNewEditPoint] started at [cur_point]
    satisfies: it is -1 or an offset of the text, to the right of
    [cur_point] when the search goes right. *)
Definition edit_point_ok (content : str) (inc cur_point r : Z) : Prop :=
  r = -1
  \/ (0 <= r <= js_length content /\ (0 < inc -> cur_point < r)).

(** Text without its leading whitespace. *)
Fixpoint strip_leading_space (s : str) : str :=
  match s with
  | c :: t => if is_space c then strip_leading_space t else s
  | [] => []
  end.

(** The leading whitespace of a text. *)
Fixpoint leading_space (s : str) : str :=
  match s with
  | c :: t => if is_space c then c :: leading_space t else []
  | [] => []
  end.

Definition starts_with_space (s : str) : bool :=
  match s with
  | c :: _ => is_space c
  | [] => false
  end.

Definition ends_with_space (s : str) : bool := starts_with_space (rev s).

(** Two whitespace characters in a row somewhere in the text. *)
Fixpoint has_space_run (s : str) : bool :=
  match s with
  | a :: t => (is_space a && starts_with_space t) || has_space_run t
  | [] => false
  end.

(** The leftmost run of two or more whitespace characters replaced by
    one space. *)
Fixpoint collapse_first_run (s : str) : str :=
  match s with
  | a :: t =>
      if is_space a && starts_with_space t
      then lit " " ++ strip_leading_space t
      else a :: collapse_first_run t
  | [] => []
  end.

(** Every run of two or more whitespace characters replaced by one
    space, as the specification words the collapse. [in_run] tells that
    the characters read belong to a run already replaced. *)
Fixpoint collapse_all_runs (in_run : bool) (s : str) : str :=
  match s with
  | a :: t =>
      if is_space a then
        if in_run then collapse_all_runs true t
        else if starts_with_space t
             then lit " " ++ collapse_all_runs true t
             else a :: collapse_all_runs false t
      else a :: collapse_all_runs false t
  | [] => []
  end.

(** The lines of a text joined without separator, each line after the
    first without its leading whitespace. *)
Definition joined_lines (lines : list str) : str :=
  match lines with
  | [] => []
  | first :: others => concat (first :: map strip_leading_space others)
  end.

(** A text without line terminator. *)
Definition single_line (s : str) : bool :=
  forallb (fun c => negb (is_newline c)) s.


(** [s] without the prefix [p], when it has that prefix. *)
Fixpoint remove_prefix (p s : str) : option str :=
  match p, s with
  | [], _ => Some s
  | a :: p', b :: s' => if Ascii.eqb b a then remove_prefix p' s' else None
  | _ :: _, [] => None
  end.

(** [s] without the prefix [p], or [s] itself when it does not begin
    with [p]. *)
Definition without_prefix (p s : str) : str :=
  match remove_prefix p s with
  | Some rest => rest
  | None => s
  end.

(** The three kinds of edit point at offset [p] of a text, as the
    scanner knows them: between a [>] and a [<]; between the two
    quotes of an empty attribute value; on a line terminator that ends
    a line the scanner takes for blank. *)
Definition between_tags (content : str) (p : Z) : Prop :=
  charAt content (p - 1) = Some ">"%char
  /\ charAt content p = Some "<"%char.

Definition empty_attribute (content : str) (p : Z) : Prop :=
  exists q, (q = DQUOTE \/ q = SQUOTE)
            /\ charAt content (p - 2) = Some "="%char
            /\ charAt content (p - 1) = Some q
            /\ charAt content p = Some q.

(** The line that ends at offset [p] is one the scanner takes for
    blank. The text before [p] is a [head], empty or ending with a line
    terminator, followed by the line, [body] and a last character [d].
    Every character of [body] is whitespace; the last character [d] is
    not looked at, it is any character but a line terminator. On the
    first line of the text [body] must not be empty. So the end of a
    line of one character counts, whatever the character, unless the
    line is the first of the text; a line without characters does
    not. *)
Definition line_taken_for_blank (content : str) (p : Z) : Prop :=
  exists head body d,
    firstn (Z.to_nat p) content = head ++ body ++ [d]
    /\ ((head = [] /\ body <> [])
        \/ exists h t, head = h ++ [t] /\ is_newline t = true)
    /\ single_line (body ++ [d]) = true
    /\ forallb is_space body = true.

Definition blank_line_end (content : str) (p : Z) : Prop :=
  (charAt content p = Some LF \/ charAt content p = Some CR)
  /\ line_taken_for_blank content p.

(** The loop of [findNewEditPoint] started at [start] takes a [j]-th
    turn: the offsets it was at before are all inside the text. *)
Definition takes_turn (content : str) (start inc : Z) (j : Z) : Prop :=
  forall m, 0 <= m < j ->
            0 < start + m * inc < js_length content.

(** An edit point at offset [p], as the scanner knows them. The third
    kind is wider and narrower than the end of a blank line: the last
    character of the line is not looked at, and a first line of a
    single space does not count. *)
Definition edit_point (content : str) (p : Z) : Prop :=
  between_tags content p \/ empty_attribute content p
  \/ blank_line_end content p.

(** What the scanner finds when it looks at offset [c]: an edit point
    right after [c], between tags or in an empty attribute, or an edit
    point at [c], the end of a line it takes for blank. *)
Definition edit_point_seen_at (content : str) (c : Z) : Prop :=
  between_tags content (c + 1) \/ empty_attribute content (c + 1)
  \/ blank_line_end content c.

(** The range [toggleHTMLComment] works on: the selection, or, when it
    is empty, the tag or tag pair found at the caret. *)
Definition comment_target (env : zen_env) (st : state) : range :=
  let e := editor st in
  let rng := getSelectionRange e in
  if r_start rng =? r_end rng then
    match HTMLPairMatcher_getTags env (getContent e) (getCaretPos e) with
    | Some (Some t0, t1) =>
        mkRange (t_start t0)
                (match t1 with Some t => t_end t | None => t_end t0 end)
    | _ => rng
    end
  else rng.

(** The offset at which [goToMatchingPair] asks the tag matcher: one
    past the caret when the caret is on a [<]. *)
Definition match_caret (e : zen_editor) : Z :=
  if chr_eqb (charAt (getContent e) (getCaretPos e)) (Some "<"%char)
  then getCaretPos e + 1 else getCaretPos e.

(** The offset [pos] is on the tag [t], its two ends included. *)
Definition on_tag (t : tag) (pos : Z) : Prop :=
  t_start t <= pos <= t_end t.






(* ================================================================= *)
(** * Properties *)

(** ** Strings *)

Lemma str_eqb_eq (a b : str) : str_eqb a b = true <-> a = b.
Proof.
  unfold str_eqb. destruct (list_eq_dec ascii_dec a b); split; congruence.
Qed.

Lemma str_eqb_neq (a b : str) : str_eqb a b = false <-> a <> b.
Proof.
  unfold str_eqb. destruct (list_eq_dec ascii_dec a b); split; congruence.
Qed.

Lemma str_eqb_refl (a : str) : str_eqb a a = true.
Proof. now apply str_eqb_eq. Qed.

(** ** The syntax gate of the comment toggle *)

Lemma toggleComment_markup env st :
  markup_syntax (getSyntax (editor st)) ->
  toggleComment env st =
  match toggleHTMLComment env st with
  | Some (b, st') => Some (Some b, st')
  | None => None
  end.
Proof.
  unfold toggleComment. intros [H | [H | H]]; rewrite H; reflexivity.
Qed.

(** C10. Outside the syntaxes html, xml and xhtml, [toggleComment] ends
    at once: it returns [undefined], and the state it leaves is the
    state it was given, so the text, the selection and the caret are
    untouched and the editor has received no call ([replaceContent],
    [createSelection], [setCaretPos]). *)
Theorem toggleComment_other_syntax_untouched :
  forall (env : zen_env) (st : state),
    getSyntax (editor st) <> lit "html" ->
    getSyntax (editor st) <> lit "xml" ->
    getSyntax (editor st) <> lit "xhtml" ->
    toggleComment env st = Some (None, st).
Proof.
  intros env st H1 H2 H3. unfold toggleComment.
  apply str_eqb_neq in H1, H2, H3.
  now rewrite H1, H2, H3.
Qed.

Lemma toggleComment_other_syntax_untouched_css :
  let st := state_on "css" "a { color: red }" 0 16 0 in
  toggleComment no_tags_env st = Some (None, st)
  /\ ed_calls (editor st) = [].
Proof.
  split; [ | reflexivity ].
  apply toggleComment_other_syntax_untouched;
    intro H; apply str_eqb_eq in H; vm_compute in H; discriminate.
Defined.

(** ** The edit-point scanner *)

Lemma edit_point_loop_stop content inc fuel cur_point :
  (cur_point <? js_length content) && (cur_point >? 0) = false ->
  edit_point_loop content inc fuel cur_point = Some (-1).
Proof.
  intros H. destruct fuel; simpl; now rewrite H.
Qed.

(** C9. When the search starts at offset 0 (caret position plus initial
    offset), [findNewEditPoint] returns -1 whatever the text and the
    direction: the loop is not entered. *)
Theorem findNewEditPoint_from_zero_not_found :
  forall (e : zen_editor) (inc offset : option Z),
    getCaretPos e + num_or offset 0 = 0 ->
    findNewEditPoint e inc offset = Some (-1).
Proof.
  intros e inc offset H. unfold findNewEditPoint. rewrite H.
  apply edit_point_loop_stop.
  apply andb_false_intro2. reflexivity.
Qed.

Lemma findNewEditPoint_from_zero_not_found_between_tags :
  let e := editor_on "html" "><p></p>" 0 0 0 in
  findNewEditPoint e (Some 1) None = Some (-1)
  /\ findNewEditPoint e (Some (-1)) None = Some (-1)
  /\ findNewEditPoint (setCaretPos 2 e) (Some (-1)) None = Some 1.
Proof.
  split; [ | split ].
  - apply (@findNewEditPoint_from_zero_not_found
             (editor_on "html" "><p></p>" 0 0 0) (Some 1) None).
    reflexivity.
  - apply (@findNewEditPoint_from_zero_not_found
             (editor_on "html" "><p></p>" 0 0 0) (Some (-1)) None).
    reflexivity.
  - reflexivity.
Defined.

(** The fuel [getLine] gives its loop is enough: the loop stops where
    its condition fails or on a line terminator. *)
Lemma getLine_start_done (content : str) (fuel : nat) :
  forall start,
    start + 1 <= Z.of_nat fuel ->
    let r := getLine_start content fuel start in
    r < 0
    \/ chr_eqb (charAt content r) (Some LF)
       || chr_eqb (charAt content r) (Some CR) = true.
Proof.
  induction fuel as [ | k IH]; intros start Hfuel; simpl.
  - left. lia.
  - destruct (Z.geb_spec start 0) as [Hge | Hlt]; [ | left; lia ].
    destruct (chr_eqb (charAt content start) (Some LF)
              || chr_eqb (charAt content start) (Some CR)) eqn:Hc.
    + right. exact Hc.
    + apply IH. lia.
Qed.

Lemma chr_eqb_Some (a : option ascii) (c : ascii) :
  chr_eqb a (Some c) = true -> a = Some c.
Proof.
  destruct a as [x | ]; simpl; [ | discriminate ].
  intros H. apply Ascii.eqb_eq in H. now subst.
Qed.

Lemma charAt_Some_bounds (s : str) (i : Z) (c : ascii) :
  charAt s i = Some c -> 0 <= i < js_length s.
Proof.
  unfold charAt, js_length.
  destruct (Z.ltb_spec i 0) as [Hi | Hi]; [ discriminate | ].
  intros Hc.
  assert (Hn : nth_error s (Z.to_nat i) <> None) by congruence.
  apply nth_error_Some in Hn. lia.
Qed.

(** Where the scanner finds an insertion point, the offset it looked at
    is inside the text, and the point is that offset or the next. *)
Lemma scan_point_bounds (content : str) (cur_point : Z) :
  scan_point content cur_point = -1
  \/ (0 <= cur_point < js_length content
      /\ cur_point <= scan_point content cur_point <= cur_point + 1
      /\ scan_point content cur_point <= js_length content).
Proof.
  unfold scan_point.
  destruct (charAt content cur_point) as [c | ] eqn:Hc;
    [ | left; reflexivity ].
  pose proof (charAt_Some_bounds _ _ Hc) as Hb.
  destruct (chr_eqb (Some c) (Some DQUOTE) || chr_eqb (Some c) (Some SQUOTE)).
  - destruct (charAt content (cur_point + 1)) as [d | ] eqn:Hd;
      [ | left; reflexivity ].
    pose proof (charAt_Some_bounds _ _ Hd).
    match goal with |- context [if ?b then _ else _] => destruct b end;
      [ right; lia | left; reflexivity ].
  - destruct (chr_eqb (Some c) (Some ">"%char)).
    + destruct (chr_eqb (charAt content (cur_point + 1)) (Some "<"%char))
        eqn:Hd; [ | left; reflexivity ].
      apply chr_eqb_Some in Hd. pose proof (charAt_Some_bounds _ _ Hd).
      right; lia.
    + destruct (chr_eqb (Some c) (Some LF) || chr_eqb (Some c) (Some CR));
        [ | left; reflexivity ].
      match goal with |- context [if ?b then _ else _] => destruct b end;
        [ right; lia | left; reflexivity ].
Qed.

Section EditPointLoop.
Variable content : str.
Variable inc : Z.
Hypothesis inc_nonzero : inc <> 0.

Lemma edit_point_loop_total (fuel : nat) :
  forall cur_point,
    (0 < cur_point < js_length content ->
     turns_left content inc cur_point <= Z.of_nat fuel) ->
    exists r, edit_point_loop content inc fuel cur_point = Some r
              /\ edit_point_ok content inc cur_point r.
Proof.
  induction fuel as [ | k IH]; intros cur_point Hfuel.
  - destruct ((cur_point <? js_length content) && (cur_point >? 0))
      eqn:Hc.
    + exfalso. unfold turns_left in Hfuel.
      apply andb_prop in Hc. destruct Hc as [H1 H2].
      apply Z.ltb_lt in H1. apply Z.gtb_lt in H2.
      destruct (inc >? 0); simpl in Hfuel; lia.
    + exists (-1). split; [ now apply edit_point_loop_stop | now left ].
  - destruct ((cur_point <? js_length content) && (cur_point >? 0))
      eqn:Hc.
    + simpl. rewrite Hc.
      apply andb_prop in Hc. destruct Hc as [H1 H2].
      apply Z.ltb_lt in H1. apply Z.gtb_lt in H2.
      destruct (Z.eqb_spec (scan_point content (cur_point + inc)) (-1))
        as [Hs | Hs]; simpl.
      * destruct (IH (cur_point + inc)) as [r [Hr Hok]].
        { intros Hin. unfold turns_left in *.
          destruct (Z.gtb_spec inc 0); lia. }
        exists r. split; [ exact Hr | ].
        destruct Hok as [Hok | [Hb Hi]]; [ now left | right ].
        split; [ exact Hb | intros Hpos; specialize (Hi Hpos); lia ].
      * exists (scan_point content (cur_point + inc)).
        split; [ reflexivity | ].
        destruct (scan_point_bounds content (cur_point + inc))
          as [Hm | [Hb [Hn Hl]]]; [ contradiction | right ].
        split; lia.
    + exists (-1). split; [ now apply edit_point_loop_stop | now left ].
Qed.
End EditPointLoop.

Lemma num_or_nonzero (x : option Z) (d : Z) : d <> 0 -> num_or x d <> 0.
Proof.
  intros Hd. unfold num_or. destruct x as [v | ]; [ | exact Hd ].
  destruct (Z.eqb_spec v 0); assumption.
Qed.

(** [findNewEditPoint] always returns, and what it returns is -1 or an
    offset of the text; searching to the right, an offset past the
    place the search started from. *)
Lemma findNewEditPoint_total (e : zen_editor) (inc offset : option Z) :
  exists r,
    findNewEditPoint e inc offset = Some r
    /\ edit_point_ok (getContent e) (num_or inc 1)
                     (getCaretPos e + num_or offset 0) r.
Proof.
  unfold findNewEditPoint.
  apply edit_point_loop_total.
  - apply num_or_nonzero. discriminate.
  - intros H. unfold turns_left, js_length in *.
    destruct (num_or inc 1 >? 0); lia.
Qed.

Lemma findNewEditPoint_content_caret (e e' : zen_editor) inc offset :
  getContent e = getContent e' -> getCaretPos e = getCaretPos e' ->
  findNewEditPoint e inc offset = findNewEditPoint e' inc offset.
Proof.
  intros H1 H2. unfold findNewEditPoint. now rewrite H1, H2.
Qed.

Lemma forward_points_sorted (n : nat) :
  forall e,
    StronglySorted Z.lt (getCaretPos e :: forward_points n e)
    /\ Forall (fun p => 0 <= p <= js_length (getContent e))
              (forward_points n e).
Proof.
  induction n as [ | k IH]; intros e; simpl.
  - split; repeat constructor.
  - destruct (findNewEditPoint_total e (Some 1) None) as [r [Hr Hok]].
    rewrite Hr. simpl in Hok. rewrite Z.add_0_r in Hok.
    destruct (Z.eqb_spec r (-1)) as [Hm | Hm].
    + split; repeat constructor.
    + destruct Hok as [Hok | [Hb Hlt]]; [ contradiction | ].
      specialize (Hlt eq_refl).
      destruct (IH (setCaretPos r e)) as [Hs Hf]. simpl in Hs, Hf.
      split.
      * constructor; [ exact Hs | ].
        constructor; [ exact Hlt | ].
        apply StronglySorted_inv in Hs. destruct Hs as [_ Hs].
        eapply Forall_impl; [ | exact Hs ]. simpl. intros; lia.
      * constructor; assumption.
Qed.

Lemma findNewEditPoint_found_inside (e : zen_editor) inc offset (r : Z) :
  findNewEditPoint e inc offset = Some r -> r <> -1 ->
  0 < getCaretPos e + num_or offset 0 < js_length (getContent e).
Proof.
  unfold findNewEditPoint. intros Hr Hm.
  set (cur := getCaretPos e + num_or offset 0) in *.
  destruct ((cur <? js_length (getContent e)) && (cur >? 0)) eqn:Hc.
  - apply andb_prop in Hc. destruct Hc as [H1 H2].
    apply Z.ltb_lt in H1. apply Z.gtb_lt in H2. lia.
  - rewrite edit_point_loop_stop in Hr by exact Hc. congruence.
Qed.

Lemma forward_points_length (n : nat) :
  forall e,
    Z.of_nat (length (forward_points n e))
    <= Z.max 0 (js_length (getContent e) - Z.max 1 (getCaretPos e)).
Proof.
  induction n as [ | k IH]; intros e; simpl; [ lia | ].
  destruct (findNewEditPoint_total e (Some 1) None) as [r [Hr Hok]].
  rewrite Hr. simpl in Hok. rewrite Z.add_0_r in Hok.
  destruct (Z.eqb_spec r (-1)) as [Hm | Hm]; simpl; [ lia | ].
  pose proof (findNewEditPoint_found_inside _ _ _ Hr Hm) as Hin.
  simpl in Hin. rewrite Z.add_0_r in Hin.
  destruct Hok as [Hok | [Hb Hlt]]; [ contradiction | ].
  specialize (Hlt eq_refl).
  specialize (IH (setCaretPos r e)). simpl in IH.
  unfold getContent, getCaretPos in *. lia.
Qed.

Lemma last_cons_default (A : Type) (l : list A) (x d : A) :
  last (x :: l) d = last l x.
Proof.
  revert x d. induction l as [ | y l IH]; intros x d; [ reflexivity | ].
  change (last (x :: y :: l) d) with (last (y :: l) d).
  rewrite IH. symmetry. apply IH.
Qed.

Lemma forward_points_stop (n : nat) :
  forall e,
    (length (forward_points n e) < n)%nat ->
    findNewEditPoint
      (setCaretPos (last (forward_points n e) (getCaretPos e)) e)
      (Some 1) None = Some (-1).
Proof.
  induction n as [ | k IH]; intros e Hlen; [ inversion Hlen | ].
  simpl forward_points in *.
  destruct (findNewEditPoint_total e (Some 1) None) as [r [Hr _]].
  rewrite Hr in *.
  destruct (Z.eqb_spec r (-1)) as [Hm | Hm].
  - subst r. rewrite <- Hr. now apply findNewEditPoint_content_caret.
  - rewrite last_cons_default.
    assert (Hk : (length (forward_points k (setCaretPos r e)) < k)%nat)
      by (simpl in Hlen; lia).
    specialize (IH (setCaretPos r e) Hk). rewrite <- IH.
    now apply findNewEditPoint_content_caret.
Qed.

(** One call of [nextEditPoint] is one step of [forward_points]. *)
Lemma nextEditPoint_forward_points (e e' : zen_editor) :
  nextEditPoint e = Some e' ->
  (forward_points 1 e = [] /\ e' = e)
  \/ (forward_points 1 e = [getCaretPos e']
      /\ e' = setCaretPos (getCaretPos e') e).
Proof.
  unfold nextEditPoint. simpl.
  destruct (findNewEditPoint e (Some 1) None) as [p | ];
    [ | discriminate ].
  destruct (p =? -1); simpl; intros H; injection H as <-.
  - now left.
  - right. split; reflexivity.
Qed.

(** C5. [findNewEditPoint] returns, and returns -1 or an offset between
    0 and the length of the text, for every direction and initial
    offset. Calls to the right that each start from the offset the
    previous one returned give strictly increasing offsets, all within
    the text, and after at most as many offsets as the text has
    characters the next call returns -1. *)
Theorem findNewEditPoint_in_bounds_and_forward_increasing :
  forall e : zen_editor,
    (forall inc offset,
        exists r, findNewEditPoint e inc offset = Some r
                  /\ (r = -1 \/ 0 <= r <= js_length (getContent e)))
    /\ (forall n,
          StronglySorted Z.lt (getCaretPos e :: forward_points n e)
          /\ Forall (fun p => 0 <= p <= js_length (getContent e))
                    (forward_points n e))
    /\ (forall n,
          (length (getContent e) < n)%nat ->
          (length (forward_points n e) < n)%nat
          /\ findNewEditPoint
               (setCaretPos (last (forward_points n e) (getCaretPos e)) e)
               (Some 1) None = Some (-1)).
Proof.
  intros e. split; [ | split ].
  - intros inc offset.
    destruct (findNewEditPoint_total e inc offset) as [r [Hr Hok]].
    exists r. split; [ exact Hr | ].
    destruct Hok as [Hok | [Hb _]]; [ now left | now right ].
  - intros n. apply forward_points_sorted.
  - intros n Hn.
    assert (Hlen : (length (forward_points n e) < n)%nat).
    { pose proof (forward_points_length n e) as Hl.
      unfold js_length in Hl. lia. }
    split; [ exact Hlen | now apply forward_points_stop ].
Qed.

(** ** The registered actions *)

Lemma callees_not_mergeLines (f : action_fn) :
  ~ In fn_mergeLines (callees f).
Proof.
  destruct f; simpl; intros H;
    repeat (destruct H as [H | H]; [ discriminate | ]); exact H.
Qed.

Lemma reached_not_mergeLines (n : nat) :
  forall f, f <> fn_mergeLines -> ~ In fn_mergeLines (reached n f).
Proof.
  induction n as [ | k IH]; intros f Hf; simpl.
  - intros [H | []]. congruence.
  - intros [H | H]; [ congruence | ].
    apply in_flat_map in H. destruct H as [g [Hg Hin]].
    apply (IH g); [ | exact Hin ].
    intros ->. exact (callees_not_mergeLines f Hg).
Qed.

(** C8. The name [mergeLines] is registered for the function
    [toggleComment]. No registered name stands for the function
    [mergeLines], and no registered function reaches it through calls:
    the line merger cannot be run through a registered action. What
    runs under the name differs from the line merger: on the two
    selected lines [a] and [  b] of an HTML text, the line merger
    leaves [ab] and the registered action leaves a comment. *)
Theorem mergeLines_name_runs_toggleComment :
  lookup_action (lit "mergeLines") registered_actions
  = Some fn_toggleComment
  /\ (forall name f n,
         In (name, f) registered_actions ->
         f <> fn_mergeLines /\ ~ In fn_mergeLines (reached n f))
  /\ (let st := mkState (mkEditor (lit "a" ++ [LF] ++ lit "  b")
                                  (mkRange 0 5) 0 (lit "html") [])
                        (mkCache None None) in
      ed_content (editor (mergeLines no_tags_env st)) = lit "ab"
      /\ option_map (fun r => ed_content (editor (snd r)))
                    (toggleComment no_tags_env st)
         = Some (lit "<!-- a" ++ [LF] ++ lit "  b -->")).
Proof.
  split; [ reflexivity | split ].
  - intros name f n Hin.
    assert (Hf : f <> fn_mergeLines).
    { simpl in Hin.
      repeat (destruct Hin as [Hin | Hin];
              [ inversion Hin; discriminate | ]).
      destruct Hin. }
    split; [ exact Hf | now apply reached_not_mergeLines ].
  - split; vm_compute; reflexivity.
Qed.

(** ** The tag-pair navigator *)

(** C6, as stated, fails: the cached match is the unary tag [<br/>] and
    the direction is inward, but the selection is empty; the navigator
    then matches outward from the caret and selects the tag. *)
Lemma matchPair_in_unary_empty_selection_selects :
  let st := mkState (editor_on "html" "<p><br/></p>" 5 5 5)
                    (mkCache (Some (mkTag 3 8)) None) in
  closing_tag (last_match st) = None
  /\ matchPair br_env (Some (lit "in")) st
     = (true, mkState (createSelection 3 8 (editor st))
                      (mkCache (Some (mkTag 3 8)) None))
  /\ matchPair br_env (Some (lit "in")) st <> (false, st).
Proof.
  split; [ reflexivity | split ]; [ reflexivity | ].
  vm_compute. discriminate.
Qed.

(** C6, amended. In inward mode, when the cached match has an opening
    tag and no closing tag: with a selection that is not empty,
    [matchPair] returns [false] and leaves the state as it was, nothing
    is selected, the editor receives no call and the matcher is not
    asked; with an empty selection it does what outward mode does, it
    asks the tag matcher at the end offset of the selection, selects
    the range the matcher reports and returns [true], or, when the
    matcher reports no range or one that starts at -1, returns [false]
    and leaves the editor as it was. *)
Theorem matchPair_in_unary_no_op_or_outward :
  forall (env : zen_env) (direction : option str) (st : state)
         (old_open_tag : tag),
    direction_or_out direction = lit "in" ->
    opening_tag (last_match st) = Some old_open_tag ->
    closing_tag (last_match st) = None ->
    let e := editor st in
    let rng := getSelectionRange e in
    let found :=
      HTMLPairMatcher env (getContent e) (r_end rng) (last_match st) in
    (r_start rng <> r_end rng ->
     matchPair env direction st = (false, st))
    /\ (r_start rng = r_end rng ->
        matchPair env direction st = matchPair env None st
        /\ (forall a b,
               fst found = Some (a, b) -> a <> -1 ->
               matchPair env direction st
               = (true, mkState (createSelection a b e) (snd found)))
        /\ (forall a b,
               fst found = Some (a, b) -> a = -1 ->
               matchPair env direction st
               = (false, mkState e (snd found)))
        /\ (fst found = None ->
            matchPair env direction st
            = (false, mkState e (snd found)))).
Proof.
  intros env direction st old_open_tag Hd Ho Hc e rng found.
  unfold matchPair. rewrite Hd, Ho, Hc. cbv zeta.
  fold e. fold rng. fold found.
  split.
  - intros Hsel. apply Z.eqb_neq in Hsel. rewrite Hsel. reflexivity.
  - intros Hsel. apply Z.eqb_eq in Hsel. rewrite Hsel.
    cbn [negb andb]. rewrite andb_false_r.
    split; [ reflexivity | ].
    destruct found as [[[a b] | ] cache]; cbn [fst snd select_range].
    + split; [ | split ].
      * intros a' b' Hr Ha. injection Hr as <- <-.
        apply Z.eqb_neq in Ha. now rewrite Ha.
      * intros a' b' Hr Ha. injection Hr as <- <-.
        apply Z.eqb_eq in Ha. now rewrite Ha.
      * discriminate.
    + split; [ | split ]; [ discriminate | discriminate | reflexivity ].
Qed.

Lemma matchPair_in_unary_no_op_or_outward_br :
  (let st := mkState (editor_on "html" "<p><br/></p>" 3 8 8)
                     (mkCache (Some (mkTag 3 8)) None) in
   matchPair br_env (Some (lit "IN")) st = (false, st))
  /\ (let st := mkState (editor_on "html" "<p><br/></p>" 5 5 5)
                        (mkCache (Some (mkTag 3 8)) None) in
      matchPair br_env (Some (lit "IN")) st
      = (true, mkState (createSelection 3 8 (editor st))
                       (mkCache (Some (mkTag 3 8)) None))).
Proof.
  split.
  - destruct (@matchPair_in_unary_no_op_or_outward
                br_env (Some (lit "IN"))
                (mkState (editor_on "html" "<p><br/></p>" 3 8 8)
                         (mkCache (Some (mkTag 3 8)) None))
                (mkTag 3 8) eq_refl eq_refl eq_refl) as [Hsel _].
    apply Hsel. simpl. lia.
  - destruct (@matchPair_in_unary_no_op_or_outward
                br_env (Some (lit "IN"))
                (mkState (editor_on "html" "<p><br/></p>" 5 5 5)
                         (mkCache (Some (mkTag 3 8)) None))
                (mkTag 3 8) eq_refl eq_refl eq_refl) as [_ Hempty].
    destruct (Hempty eq_refl) as [_ [Hfound _]].
    apply (Hfound 3 8); [ reflexivity | discriminate ].
Defined.

(** ** The comment toggle *)

(** The caret only passes through [removeComment]. *)
Lemma removeComment_caret (s : str) (caret_pos : Z) :
  removeComment s caret_pos
  = (fst (removeComment s 0), caret_pos + snd (removeComment s 0)).
Proof.
  unfold removeComment.
  destruct (exec re_comment_open s) as [[[before m] rest] | ]; simpl;
    f_equal; lia.
Qed.

Section ToggleSteps.
Variable env : zen_env.
Variable st : state.

Let rng := getSelectionRange (editor st).
Let content := getContent (editor st).
Let caret_pos := getCaretPos (editor st).

Hypothesis selection_not_empty : r_start rng <> r_end rng.

(** The selection starts with a comment-open marker: the markers are
    removed. *)
Lemma toggleHTMLComment_unwrap :
  hasMatch content (lit "<!--") (r_start rng) = true ->
  toggleHTMLComment env st
  = Some (put_comment env st
            (fst (removeComment
                    (substring content (r_start rng) (r_end rng)) 0))
            rng
            (caret_pos
             + snd (removeComment
                      (substring content (r_start rng) (r_end rng)) 0))).
Proof.
  intros Hm. unfold toggleHTMLComment. cbv zeta.
  fold rng content caret_pos.
  apply Z.eqb_neq in selection_not_empty.
  repeat (rewrite selection_not_empty; cbv beta iota). cbn [negb].
  rewrite Hm. rewrite removeComment_caret. reflexivity.
Qed.
End ToggleSteps.

Lemma app_calls3 (l : list editor_call) (a b c : editor_call) :
  ((l ++ [a]) ++ [b]) ++ [c] = l ++ [a; b; c].
Proof. now rewrite <- !app_assoc. Qed.

(** C7. On the text [<!-- hello -->] of a markup syntax, selected from
    0 to 14, [toggleComment] replaces the text by [hello] and moves the
    caret 5 to the left. The line splitter is asked to split [hello],
    which has one line. *)
Theorem toggleComment_unwraps_hello :
  forall (env : zen_env) (syntax : str) (caret : Z)
         (calls : list editor_call) (cache : match_cache),
    markup_syntax syntax ->
    splitByLines env (lit "hello") = [lit "hello"] ->
    toggleComment env
      (mkState (mkEditor (lit "<!-- hello -->") (mkRange 0 14) caret
                         syntax calls) cache)
    = Some (Some true,
            mkState (mkEditor (lit "hello") (mkRange 0 14) (caret - 5)
                       syntax
                       (calls ++ [SetCaretPos 0;
                                  ReplaceContent (lit "hello") 0 14;
                                  SetCaretPos (caret - 5)]))
                    cache).
Proof.
  intros env syntax caret calls cache Hsyn Hsplit.
  rewrite toggleComment_markup by exact Hsyn.
  rewrite toggleHTMLComment_unwrap;
    [ | simpl; lia | reflexivity ].
  cbn [editor getSelectionRange ed_selection r_start r_end getContent
       ed_content getCaretPos ed_caret].
  change (removeComment (substring (lit "<!-- hello -->") 0 14) 0)
    with (lit "hello", -5).
  cbn [fst snd].
  unfold put_comment, unindent.
  cbn [editor r_start r_end].
  change (getCurrentLinePadding
            (setCaretPos 0 (mkEditor (lit "<!-- hello -->") (mkRange 0 14)
                                     caret syntax calls)))
    with (@nil ascii).
  rewrite Hsplit.
  change (join (getNewline env) (map (unindent_line []) [lit "hello"]))
    with (lit "hello").
  unfold with_editor, setCaretPos, replaceContent.
  cbn [ed_content ed_selection ed_caret ed_syntax ed_calls last_match].
  change (substring (lit "<!-- hello -->") 0 0 ++ lit "hello"
          ++ substring (lit "<!-- hello -->") 14
               (js_length (lit "<!-- hello -->")))
    with (lit "hello").
  rewrite app_calls3. reflexivity.
Qed.

Lemma toggleComment_unwraps_hello_html :
  option_map (fun r => (ed_content (editor (snd r)),
                        ed_caret (editor (snd r))))
             (toggleComment no_tags_env
                (state_on "html" "<!-- hello -->" 0 14 14))
  = Some (lit "hello", 9).
Proof.
  unfold state_on, editor_on.
  rewrite (@toggleComment_unwraps_hello no_tags_env (lit "html") 14 []
             (mkCache None None)).
  - reflexivity.
  - left. reflexivity.
  - reflexivity.
Defined.

(** ** The regular expressions of the line merger *)

Lemma orElse_None_r (A : Type) (a : option A) : orElse a None = a.
Proof. now destruct a. Qed.

Lemma match_spaces_0_all (s : str) (bol : bool) :
  match_spaces 0 bol s (fun _ rest => Some rest)
  = Some (strip_leading_space s).
Proof.
  revert bol. induction s as [ | c t IH]; intros bol; simpl;
    [ reflexivity | ].
  destruct (is_space c); [ | reflexivity ].
  now rewrite IH.
Qed.

Lemma match_spaces_S (A : Type) (n : nat) (bol : bool) (c : ascii)
      (t : str) (k : bool -> str -> option A) :
  match_spaces (S n) bol (c :: t) k
  = if is_space c then match_spaces n false t k else None.
Proof.
  simpl. destruct (is_space c); [ apply orElse_None_r | reflexivity ].
Qed.

Lemma match_here_leading_space_inner (s : str) (before : str) :
  exec_from re_leading_space false before s = None.
Proof.
  revert before. induction s as [ | c t IH]; intros before;
    [ reflexivity | ].
  simpl. apply IH.
Qed.

Lemma leading_space_split (s : str) :
  s = leading_space s ++ strip_leading_space s.
Proof.
  induction s as [ | c t IH]; simpl; [ reflexivity | ].
  destruct (is_space c); simpl; [ now f_equal | reflexivity ].
Qed.

Lemma matched_leading_space (s : str) :
  matched s (strip_leading_space s) = leading_space s.
Proof.
  unfold matched.
  rewrite (leading_space_split s) at 1 3.
  rewrite length_app.
  replace (length (leading_space s) + length (strip_leading_space s)
           - length (strip_leading_space s))%nat
    with (length (leading_space s) + 0)%nat by lia.
  rewrite firstn_app_2. simpl. apply app_nil_r.
Qed.

(** [/^\s+/] matches the leading whitespace of a text, if there is
    any. *)
Lemma exec_leading_space (s : str) :
  exec re_leading_space s
  = if starts_with_space s
    then Some ([], leading_space s, strip_leading_space s)
    else None.
Proof.
  unfold exec. destruct s as [ | c t]; [ reflexivity | ].
  unfold exec_from; fold exec_from.
  unfold match_here, re_leading_space. cbn [rmatch].
  rewrite match_spaces_S. cbn [starts_with_space].
  destruct (is_space c) eqn:Hc.
  - rewrite match_spaces_0_all.
    pose proof (matched_leading_space (c :: t)) as Hm.
    simpl strip_leading_space in Hm. simpl leading_space in Hm.
    rewrite Hc in Hm. rewrite Hm.
    cbn [leading_space strip_leading_space]. rewrite Hc. reflexivity.
  - apply match_here_leading_space_inner.
Qed.

Lemma replace_leading_space (s : str) :
  replace re_leading_space (fun _ => []) s = strip_leading_space s.
Proof.
  unfold replace. rewrite exec_leading_space.
  destruct s as [ | c t]; [ reflexivity | ].
  simpl. destruct (is_space c); reflexivity.
Qed.

Lemma match_here_space_run (bol : bool) (s : str) :
  match_here re_space_run bol s
  = match s with
    | a :: t =>
        if is_space a && starts_with_space t
        then Some (strip_leading_space t) else None
    | [] => None
    end.
Proof.
  unfold match_here, re_space_run. cbn [rmatch].
  destruct s as [ | a t]; [ reflexivity | ].
  rewrite match_spaces_S.
  destruct (is_space a); [ | reflexivity ].
  destruct t as [ | b t']; [ reflexivity | ].
  rewrite match_spaces_S. cbn [starts_with_space andb strip_leading_space].
  destruct (is_space b); [ apply match_spaces_0_all | reflexivity ].
Qed.

Lemma exec_from_space_run (s : str) :
  forall before bol,
    match exec_from re_space_run bol before s with
    | Some (b, _, rest) => b ++ lit " " ++ rest
    | None => before ++ s
    end = before ++ collapse_first_run s.
Proof.
  induction s as [ | a t IH]; intros before bol.
  - reflexivity.
  - unfold exec_from; fold exec_from.
    rewrite match_here_space_run. cbn [collapse_first_run].
    destruct (is_space a && starts_with_space t).
    + reflexivity.
    + specialize (IH (before ++ [a]) false).
      rewrite <- !app_assoc in IH.
      destruct (exec_from re_space_run false (before ++ [a]) t)
        as [[[b m] rest] | ]; exact IH.
Qed.

(** [/\s{2,}/] without the [g] flag: the replacement reaches the
    leftmost run only. *)
Lemma replace_space_run (s : str) :
  replace re_space_run (fun _ => lit " ") s = collapse_first_run s.
Proof.
  unfold replace, exec.
  pose proof (exec_from_space_run s [] true) as H.
  destruct (exec_from re_space_run true [] s) as [[[b m] rest] | ];
    exact H.
Qed.

Lemma collapse_first_run_none (s : str) :
  has_space_run s = false -> collapse_first_run s = s.
Proof.
  induction s as [ | a t IH]; simpl; [ reflexivity | ].
  intros H. apply orb_false_elim in H. destruct H as [H1 H2].
  rewrite H1. f_equal. now apply IH.
Qed.

Lemma strip_leading_space_run (run post : str) :
  forallb is_space run = true -> starts_with_space post = false ->
  strip_leading_space (run ++ post) = post.
Proof.
  intros Hr Hp. induction run as [ | c r IH]; simpl.
  - destruct post as [ | d p]; [ reflexivity | ].
    simpl in Hp. simpl. now rewrite Hp.
  - simpl in Hr. apply andb_prop in Hr. destruct Hr as [Hc Hr].
    rewrite Hc. now apply IH.
Qed.

Lemma ends_with_space_cons (x y : ascii) (l : str) :
  ends_with_space (x :: y :: l) = ends_with_space (y :: l).
Proof.
  unfold ends_with_space. simpl.
  destruct (rev l ++ [y]) as [ | z l'] eqn:E; [ | reflexivity ].
  apply app_eq_nil in E. destruct E; discriminate.
Qed.

Lemma collapse_first_run_split (pre run post : str) :
  has_space_run pre = false -> ends_with_space pre = false ->
  forallb is_space run = true -> (2 <= length run)%nat ->
  starts_with_space post = false ->
  collapse_first_run (pre ++ run ++ post) = pre ++ lit " " ++ post.
Proof.
  intros Hpre Hend Hrun Hlen Hpost.
  induction pre as [ | x pre' IH].
  - destruct run as [ | a [ | b run']]; simpl in Hlen; try lia.
    simpl in Hrun.
    apply andb_prop in Hrun. destruct Hrun as [Ha Hrun].
    apply andb_prop in Hrun. destruct Hrun as [Hb Hrun].
    cbn [app collapse_first_run starts_with_space].
    rewrite Ha, Hb. cbn [andb].
    change (b :: run' ++ post) with ((b :: run') ++ post).
    rewrite strip_leading_space_run; [ reflexivity | | exact Hpost ].
    simpl. now rewrite Hb.
  - cbn [app collapse_first_run].
    simpl in Hpre. apply orb_false_elim in Hpre.
    destruct Hpre as [Hx Hpre].
    assert (Hc : is_space x && starts_with_space (pre' ++ run ++ post)
                 = false).
    { destruct pre' as [ | y pre'']; [ | exact Hx ].
      unfold ends_with_space in Hend. simpl in Hend. now rewrite Hend. }
    rewrite Hc. f_equal. apply IH; [ exact Hpre | ].
    destruct pre' as [ | y pre'']; [ reflexivity | ].
    now rewrite ends_with_space_cons in Hend.
Qed.

Lemma join_nil_concat (l : list str) : join [] l = concat l.
Proof.
  induction l as [ | x t IH]; [ reflexivity | ].
  destruct t as [ | y t']; [ simpl; now rewrite app_nil_r | ].
  change (join [] (x :: y :: t')) with (x ++ [] ++ join [] (y :: t')).
  rewrite IH. reflexivity.
Qed.

Lemma merge_text_collapse (env : zen_env) (text : str) :
  merge_text env text
  = collapse_first_run (joined_lines (splitByLines env text)).
Proof.
  unfold merge_text. rewrite replace_space_run. f_equal.
  rewrite join_nil_concat. unfold strip_continuation_lines, joined_lines.
  destruct (splitByLines env text) as [ | first others];
    [ reflexivity | ].
  do 2 f_equal. apply map_ext. intros l. apply replace_leading_space.
Qed.

(** C1, as stated, fails: of the two runs of spaces in the selected
    text [a  b  c] only the first is collapsed; the text put in place
    still has two spaces in a row and is not the text with every run
    collapsed. *)
Lemma mergeLines_second_run_kept :
  let st := state_on "html" "a  b  c" 0 7 0 in
  ed_content (editor (mergeLines no_tags_env st)) = lit "a b  c"
  /\ has_space_run (ed_content (editor (mergeLines no_tags_env st))) = true
  /\ collapse_all_runs false
       (joined_lines (splitByLines no_tags_env (lit "a  b  c")))
     = lit "a b c"
  /\ ed_content (editor (mergeLines no_tags_env st))
     <> collapse_all_runs false
          (joined_lines (splitByLines no_tags_env (lit "a  b  c"))).
Proof.
  repeat split. vm_compute. discriminate.
Qed.

(** C1, amended. On a range that is not empty (the selection, or the
    pair found at the caret when the selection is empty), [mergeLines]
    replaces the range and selects the replacement. The replacement is
    the lines of the range joined without separator, each line after
    the first without its leading whitespace, in which the leftmost run
    of two or more whitespace characters has become one space: the text
    before that run and the text after it are kept as they are. Without
    such a run the joined lines are the replacement. *)
Theorem mergeLines_collapses_first_run :
  forall (env : zen_env) (st : state) (span : range) (cache : match_cache),
    merge_selection env st = (span, cache) ->
    r_start span <> r_end span ->
    let text := substring (getContent (editor st))
                          (r_start span) (r_end span) in
    let joined := joined_lines (splitByLines env text) in
    exists merged : str,
      mergeLines env st
      = mkState (createSelection (r_start span)
                   (r_start span + js_length merged)
                   (replaceContent merged (r_start span) (r_end span)
                                   (editor st)))
                cache
      /\ (has_space_run joined = false -> merged = joined)
      /\ (forall pre run post,
             joined = pre ++ run ++ post ->
             has_space_run pre = false -> ends_with_space pre = false ->
             forallb is_space run = true -> (2 <= length run)%nat ->
             starts_with_space post = false ->
             merged = pre ++ lit " " ++ post).
Proof.
  intros env st span cache Hsel Hne text joined.
  exists (merge_text env text). split; [ | split ].
  - unfold mergeLines. rewrite Hsel.
    apply Z.eqb_neq in Hne. rewrite Hne. reflexivity.
  - intros H. rewrite merge_text_collapse.
    now apply collapse_first_run_none.
  - intros pre run post Hj H1 H2 H3 H4 H5.
    rewrite merge_text_collapse. fold joined. rewrite Hj.
    now apply collapse_first_run_split.
Qed.

Lemma mergeLines_collapses_first_run_abc :
  ed_content (editor (mergeLines no_tags_env
                        (state_on "html" "a  b  c" 0 7 0)))
  = lit "a b  c".
Proof.
  destruct (@mergeLines_collapses_first_run no_tags_env
              (state_on "html" "a  b  c" 0 7 0)
              (mkRange 0 7) (mkCache None None))
    as [merged [Hm [_ Hrun]]].
  - reflexivity.
  - simpl. lia.
  - rewrite Hm.
    rewrite (Hrun (lit "a") (lit "  ") (lit "b  c"));
      [ reflexivity | reflexivity | reflexivity | reflexivity
      | reflexivity | simpl; lia | reflexivity ].
Defined.

(** ** Looking for the comment around a selection *)

Lemma hasMatch_prefix (content m : str) (i : Z) :
  0 <= i -> hasMatch content m i = true ->
  firstn (length m) (skipn (Z.to_nat i) content) = m.
Proof.
  intros Hi H. unfold hasMatch in H. apply str_eqb_eq in H.
  unfold substr in H.
  destruct (Z.ltb_spec i 0) as [Hlt | _]; [ lia | ].
  unfold js_length in H. now rewrite Nat2Z.id in H.
Qed.

Lemma skipn_cons_nth_error (A : Type) (n : nat) :
  forall (l t : list A) (x : A),
    skipn n l = x :: t -> nth_error l n = Some x.
Proof.
  induction n as [ | k IH]; intros l t x H.
  - simpl in H. subst l. reflexivity.
  - destruct l as [ | y l']; [ discriminate | ].
    simpl in *. eapply IH. exact H.
Qed.

Lemma hasMatch_charAt (content m : str) (c : ascii) (i : Z) :
  0 <= i -> hasMatch content (c :: m) i = true ->
  charAt content i = Some c.
Proof.
  intros Hi H. apply hasMatch_prefix in H; [ | exact Hi ].
  unfold charAt. destruct (Z.ltb_spec i 0) as [Hlt | _]; [ lia | ].
  destruct (skipn (Z.to_nat i) content) as [ | x t] eqn:E;
    [ discriminate | ].
  simpl in H. injection H as Hx _. subst x.
  eapply skipn_cons_nth_error. exact E.
Qed.

Lemma hasMatch_bound (content m : str) (i : Z) :
  0 <= i -> m <> [] -> hasMatch content m i = true ->
  i + js_length m <= js_length content.
Proof.
  intros Hi Hm H. apply hasMatch_prefix in H; [ | exact Hi ].
  assert (0 < length m)%nat
    by (destruct m; [ contradiction | simpl; lia ]).
  apply (f_equal (@length ascii)) in H.
  rewrite length_firstn, length_skipn in H.
  unfold js_length. lia.
Qed.

(** The search to the left ends, when it starts at an offset that is
    not negative, and finds the nearest comment-open marker. *)
Lemma comment_start_loop_nearest (content : str) (cs : Z) (fuel : nat) :
  forall from,
    0 <= cs < from -> (Z.to_nat from < fuel)%nat ->
    hasMatch content (lit "<!--") cs = true ->
    (forall j, cs < j < from -> hasMatch content (lit "<!--") j = false) ->
    comment_start_loop content fuel from = Some cs.
Proof.
  induction fuel as [ | k IH]; intros from Hcs Hfuel Hm Hnone;
    [ lia | ].
  cbn [comment_start_loop]. destruct (Z.eqb_spec from 0) as [H0 | H0]; [ lia | ].
  destruct (Z.eq_dec (from - 1) cs) as [E | E].
  - rewrite E, Hm.
    rewrite (@hasMatch_charAt content (lit "!--") "<"%char cs);
      [ reflexivity | lia | exact Hm ].
  - rewrite (Hnone (from - 1)) by lia. rewrite andb_false_r.
    apply IH; [ lia | lia | exact Hm | ].
    intros j Hj. apply Hnone. lia.
Qed.

Lemma comment_start_loop_total (content : str) (fuel : nat) :
  forall from,
    0 <= from -> (Z.to_nat from < fuel)%nat ->
    exists r, comment_start_loop content fuel from = Some r
              /\ (r = -1 \/ 0 <= r < from).
Proof.
  induction fuel as [ | k IH]; intros from Hfrom Hfuel; [ lia | ].
  cbn [comment_start_loop]. destruct (Z.eqb_spec from 0) as [H0 | H0].
  - exists (-1). split; [ reflexivity | now left ].
  - destruct (chr_eqb (charAt content (from - 1)) (Some "<"%char)
              && hasMatch content (lit "<!--") (from - 1)).
    + exists (from - 1). split; [ reflexivity | right; lia ].
    + destruct (IH (from - 1)) as [r [Hr Hb]]; [ lia | lia | ].
      exists r. split; [ exact Hr | ].
      destruct Hb as [Hb | Hb]; [ now left | right; lia ].
Qed.

(** The search to the right ends and finds the first comment-close
    marker after its start. *)
Lemma comment_end_loop_first (content : str) (p : Z) (fuel : nat) :
  forall from,
    0 <= from < p -> (Z.to_nat (p - from) <= fuel)%nat ->
    hasMatch content (lit "-->") p = true ->
    (forall j, from < j < p -> hasMatch content (lit "-->") j = false) ->
    comment_end_loop content fuel from = Some (p + 3).
Proof.
  induction fuel as [ | k IH]; intros from Hp Hfuel Hm Hnone;
    [ lia | ].
  pose proof (@hasMatch_bound content (lit "-->") p) as Hb.
  specialize (Hb ltac:(lia) ltac:(discriminate) Hm). change (js_length (lit "-->")) with 3 in Hb.
  cbn [comment_end_loop].
  destruct (Z.geb_spec (js_length content) from) as [Hge | Hlt];
    [ | lia ].
  destruct (Z.eq_dec (from + 1) p) as [E | E].
  - rewrite E, Hm.
    rewrite (@hasMatch_charAt content (lit "->") "-"%char p);
      [ reflexivity | lia | exact Hm ].
  - rewrite (Hnone (from + 1)) by lia. rewrite andb_false_r.
    apply IH; [ lia | lia | exact Hm | ].
    intros j Hj. apply Hnone. lia.
Qed.

Lemma comment_end_loop_total (content : str) (fuel : nat) :
  forall from,
    js_length content - from + 2 <= Z.of_nat fuel ->
    from <= js_length content + 1 ->
    exists r, comment_end_loop content fuel from = Some r.
Proof.
  induction fuel as [ | k IH]; intros from Hfuel Hfrom; [ lia | ].
  cbn [comment_end_loop].
  destruct (Z.geb_spec (js_length content) from) as [Hge | Hlt].
  - destruct (chr_eqb (charAt content (from + 1)) (Some "-"%char)
              && hasMatch content (lit "-->") (from + 1)).
    + eexists. reflexivity.
    + apply IH; lia.
  - eexists. reflexivity.
Qed.

(** Both searches end when the selection starts at an offset that is
    not negative. *)
Lemma find_comment_total (content : str) (start : Z) :
  0 <= start ->
  exists comment_start comment_end,
    find_comment content start = Some (comment_start, comment_end).
Proof.
  intros Hs. unfold find_comment.
  destruct (@comment_start_loop_total content (S (Z.to_nat start)) start)
    as [cs [Hcs Hb]]; [ exact Hs | lia | ].
  rewrite Hcs.
  destruct (Z.eqb_spec cs (-1)) as [E | E]; simpl.
  - eexists. eexists. reflexivity.
  - destruct Hb as [Hb | Hb]; [ contradiction | ].
    destruct (Z.le_gt_cases cs (js_length content + 1)) as [Hle | Hgt].
    + destruct (@comment_end_loop_total content
                  (Z.to_nat (js_length content - cs) + 2) cs)
        as [ce Hce]; [ lia | exact Hle | ].
      rewrite Hce. eexists. eexists. reflexivity.
    + replace (Z.to_nat (js_length content - cs) + 2)%nat with 2%nat
        by lia.
      simpl.
      destruct (Z.geb_spec (js_length content) cs) as [Hge | _];
        [ lia | ].
      eexists. eexists. reflexivity.
Qed.

Lemma find_comment_around (content : str) (start cs p : Z) :
  0 <= cs < start ->
  hasMatch content (lit "<!--") cs = true ->
  (forall j, cs < j < start -> hasMatch content (lit "<!--") j = false) ->
  cs < p ->
  hasMatch content (lit "-->") p = true ->
  (forall j, cs < j < p -> hasMatch content (lit "-->") j = false) ->
  find_comment content start = Some (cs, p + 3).
Proof.
  intros Hcs Hopen Hnone Hp Hclose Hnone'.
  unfold find_comment.
  rewrite (@comment_start_loop_nearest content cs) by (try assumption; lia).
  destruct (Z.eqb_spec cs (-1)) as [E | _]; [ lia | ]. simpl.
  pose proof (@hasMatch_bound content (lit "-->") p ltac:(lia)
                ltac:(discriminate) Hclose) as Hb.
  change (js_length (lit "-->")) with 3 in Hb.
  rewrite (@comment_end_loop_first content p) by (try assumption; lia).
  reflexivity.
Qed.

(** C3, at the input where the code departs from it. The selection
    [<b><!--x--></b>] holds a comment whose markers have no whitespace
    next to them. The insertion strips markers only together with
    whitespace ([/<!--\s+|\s+-->/g]): the markers stay, and the text
    put in place holds a comment inside a comment. With whitespace
    next to the markers they are stripped. The caret moves 5 to the
    right in both cases. *)
Theorem toggleComment_wrap_keeps_tight_markers :
  option_map (fun r => (fst r, ed_content (editor (snd r)),
                        ed_caret (editor (snd r))))
             (toggleComment no_tags_env
                (state_on "html" "<b><!--x--></b>" 0 15 0))
  = Some (Some true, lit "<!-- <b><!--x--></b> -->", 5)
  /\ option_map (fun r => (fst r, ed_content (editor (snd r)),
                           ed_caret (editor (snd r))))
                (toggleComment no_tags_env
                   (state_on "html" "<b><!-- x --></b>" 0 17 0))
     = Some (Some true, lit "<!-- <b>x</b> -->", 5).
Proof.
  split; vm_compute; reflexivity.
Qed.

(** ** Ranges of a text in three parts *)

Lemma skipn_length_app (A : Type) (l r : list A) :
  skipn (length l) (l ++ r) = r.
Proof. induction l as [ | x l IH]; simpl; [ reflexivity | exact IH ]. Qed.

Lemma firstn_length_app (A : Type) (l r : list A) :
  firstn (length l) (l ++ r) = l.
Proof. induction l as [ | x l IH]; simpl; [ reflexivity | now f_equal ]. Qed.

Lemma clamp_of_nat (s : str) (n : nat) :
  (n <= length s)%nat -> clamp s (Z.of_nat n) = n.
Proof. intros H. unfold clamp, js_length. lia. Qed.

Lemma substring_of_nat (s : str) (a b : nat) :
  (a <= b)%nat -> (b <= length s)%nat ->
  substring s (Z.of_nat a) (Z.of_nat b) = firstn (b - a) (skipn a s).
Proof.
  intros Hab Hb. unfold substring.
  rewrite !clamp_of_nat by lia.
  now rewrite Nat.min_l, Nat.max_r by lia.
Qed.

Section ThreeParts.
Variables pre mid post : str.

Lemma substring_mid :
  substring (pre ++ mid ++ post) (js_length pre)
            (js_length pre + js_length mid) = mid.
Proof.
  unfold js_length. rewrite <- Nat2Z.inj_add.
  rewrite substring_of_nat by (rewrite ?length_app; lia).
  rewrite skipn_length_app.
  replace (length pre + length mid - length pre)%nat with (length mid)
    by lia.
  apply firstn_length_app.
Qed.

Lemma substring_pre :
  substring (pre ++ mid ++ post) 0 (js_length pre) = pre.
Proof.
  unfold js_length. change 0 with (Z.of_nat 0).
  rewrite substring_of_nat by (rewrite ?length_app; lia).
  rewrite Nat.sub_0_r. apply firstn_length_app.
Qed.

Lemma substring_post :
  substring (pre ++ mid ++ post) (js_length pre + js_length mid)
            (js_length (pre ++ mid ++ post)) = post.
Proof.
  unfold js_length. rewrite <- Nat2Z.inj_add.
  rewrite substring_of_nat by (rewrite ?length_app; lia).
  rewrite app_assoc, <- length_app, skipn_length_app.
  apply firstn_all2. rewrite !length_app. lia.
Qed.

Lemma replaceContent_mid (e : zen_editor) (value : str) :
  ed_content e = pre ++ mid ++ post ->
  ed_content (replaceContent value (js_length pre)
                (js_length pre + js_length mid) e)
  = pre ++ value ++ post.
Proof.
  intros H. unfold replaceContent. cbn [ed_content].
  rewrite H, substring_pre, substring_post. reflexivity.
Qed.

End ThreeParts.

(** ** Unindenting one line *)

Lemma leading_space_all (s : str) : forallb is_space (leading_space s) = true.
Proof.
  induction s as [ | c t IH]; simpl; [ reflexivity | ].
  destruct (is_space c) eqn:Hc; simpl; [ now rewrite Hc | reflexivity ].
Qed.

Lemma getCurrentLinePadding_spaces (e : zen_editor) :
  forallb is_space (getCurrentLinePadding e) = true.
Proof.
  unfold getCurrentLinePadding.
  change re_padding with re_leading_space. rewrite exec_leading_space.
  destruct (starts_with_space (getCurrentLine e));
    [ apply leading_space_all | reflexivity ].
Qed.

Lemma exec_from_before (r : regex) (s : str) :
  forall bol before b m rest,
    exec_from r bol before s = Some (b, m, rest) ->
    (length before <= length b)%nat.
Proof.
  induction s as [ | c t IH]; intros bol before b m rest H; simpl in H.
  - destruct (match_here r bol []); [ | discriminate ].
    injection H as <- _ _. lia.
  - destruct (match_here r bol (c :: t)).
    + injection H as <- _ _. lia.
    + apply IH in H. rewrite length_app in H. simpl in H. lia.
Qed.

Lemma is_space_neq (c p : ascii) :
  is_space c = false -> is_space p = true -> Ascii.eqb c p = false.
Proof.
  intros Hc Hp. destruct (Ascii.eqb_spec c p) as [E | E];
    [ subst; congruence | reflexivity ].
Qed.

Lemma match_here_literal_mismatch (p c : ascii) (pad l : str) (bol : bool) :
  Ascii.eqb c p = false ->
  match_here (regex_of_literal (p :: pad)) bol (c :: l) = None.
Proof.
  intros H. unfold match_here.
  destruct pad as [ | q pad']; cbn [regex_of_literal rmatch];
    now rewrite H.
Qed.

Lemma match_here_literal_empty (p : ascii) (pad : str) (bol : bool) :
  match_here (regex_of_literal (p :: pad)) bol [] = None.
Proof.
  unfold match_here. destruct pad as [ | q pad']; reflexivity.
Qed.

(** A line that does not begin with whitespace has no padding to
    lose. *)
Lemma unindent_line_keeps (pad line : str) :
  forallb is_space pad = true -> starts_with_space line = false ->
  unindent_line pad line = line.
Proof.
  intros Hpad Hline. unfold unindent_line, regex_search, exec.
  destruct pad as [ | p pad'].
  - destruct line as [ | c l]; [ reflexivity | ].
    cbn -[Z.of_nat firstn skipn]. unfold substr_from, substr. simpl Z.ltb.
    cbn [Z.to_nat skipn]. unfold js_length. rewrite Nat2Z.id.
    apply firstn_all.
  - simpl in Hpad. apply andb_prop in Hpad. destruct Hpad as [Hp _].
    destruct line as [ | c l].
    + cbn [exec_from]. now rewrite match_here_literal_empty.
    + simpl in Hline. cbn [exec_from].
      rewrite match_here_literal_mismatch by now apply is_space_neq.
      destruct (exec_from (regex_of_literal (p :: pad')) false
                          ([] ++ [c]) l)
        as [[[b m] rest] | ] eqn:E; [ | reflexivity ].
      apply exec_from_before in E. simpl in E.
      destruct (Z.eqb_spec (js_length b) 0) as [H0 | _];
        [ unfold js_length in H0; lia | reflexivity ].
Qed.

Lemma unindent_single_line (env : zen_env) (e : zen_editor) (text : str) :
  splitByLines env text = [text] ->
  starts_with_space text = false ->
  unindent env e text = text.
Proof.
  intros Hsplit Hstart. unfold unindent. rewrite Hsplit.
  cbn [map join]. apply unindent_line_keeps; [ | exact Hstart ].
  apply getCurrentLinePadding_spaces.
Qed.

(** ** The regular expressions of the comment toggle *)

Lemma replace_all_from_forallb (P : ascii -> bool) (r : regex) (s : str) :
  forall bol skip,
    forallb P s = true ->
    forallb P (replace_all_from r [] bol skip s) = true.
Proof.
  induction s as [ | c t IH]; intros bol skip H.
  - simpl. destruct skip; [ | reflexivity ].
    destruct (match_here r bol []); reflexivity.
  - simpl in H. apply andb_prop in H. destruct H as [Hc Ht].
    cbn [replace_all_from]. destruct skip as [ | n].
    + destruct (match_here r bol (c :: t)) as [rest | ].
      * destruct (length (c :: t) - length rest)%nat;
          cbn [app forallb]; rewrite ?Hc; now apply IH.
      * cbn [forallb]. rewrite Hc. now apply IH.
    + now apply IH.
Qed.

Lemma matched_length (s rest : str) :
  (length rest <= length s)%nat ->
  js_length (matched s rest) = js_length s - js_length rest.
Proof.
  intros H. unfold matched, js_length. rewrite length_firstn. lia.
Qed.

(** [/^<!--\s*/] on a text that starts with the marker. *)
Lemma exec_comment_open (t : str) :
  exec re_comment_open (lit "<!--" ++ t)
  = Some ([], matched (lit "<!--" ++ t) (strip_leading_space t),
          strip_leading_space t).
Proof.
  unfold exec. destruct t as [ | c t'].
  - reflexivity.
  - cbn [exec_from lit list_ascii_of_string app].
    unfold match_here, re_comment_open.
    cbn [rmatch Ascii.eqb Bool.eqb].
    rewrite match_spaces_0_all. reflexivity.
Qed.


(** [\s*] followed by a pattern that fails after every run of
    whitespace fails. *)
Lemma match_spaces_0_none (A : Type) (k : bool -> str -> option A)
      (s : str) :
  forall bol,
    (forall w s' b, s = w ++ s' -> forallb is_space w = true ->
                    k b s' = None) ->
    match_spaces 0 bol s k = None.
Proof.
  induction s as [ | c t IH]; intros bol H.
  - simpl. apply (H [] []); reflexivity.
  - simpl. destruct (is_space c) eqn:Hc.
    + rewrite IH.
      * simpl. apply (H [] (c :: t)); reflexivity.
      * intros w s' b E Hw. apply (H (c :: w) s' b).
        -- simpl. now f_equal.
        -- simpl. now rewrite Hc.
    + apply (H [] (c :: t)); reflexivity.
Qed.

Lemma all_space_ends_with_space (x : str) :
  x <> [] -> forallb is_space x = true -> ends_with_space x = true.
Proof.
  intros Hne Hall. unfold ends_with_space.
  destruct (rev x) as [ | c l] eqn:E.
  - apply (f_equal (@rev ascii)) in E. rewrite rev_involutive in E.
    simpl in E. contradiction.
  - simpl. rewrite forallb_forall in Hall. apply Hall.
    apply in_rev. rewrite E. now left.
Qed.


Lemma ends_with_space_tail (c : ascii) (t : str) :
  ends_with_space (c :: t) = false -> ends_with_space t = false.
Proof.
  destruct t as [ | d t']; [ reflexivity | ].
  now rewrite ends_with_space_cons.
Qed.




(** ** Toggling twice *)

Lemma split_lines_single (s : str) :
  forall cur, single_line s = true -> split_lines cur s = [cur ++ s].
Proof.
  induction s as [ | c t IH]; intros cur H.
  - simpl. now rewrite app_nil_r.
  - simpl in H. apply andb_prop in H. destruct H as [Hc Ht].
    unfold is_newline in Hc. apply negb_true_iff in Hc.
    apply orb_false_elim in Hc. destruct Hc as [Hlf Hcr].
    cbn [split_lines]. rewrite Hlf, Hcr.
    rewrite IH by exact Ht. now rewrite <- app_assoc.
Qed.



(* ================================================================= *)
(** * Further properties of the actions *)

(** ** Padding and unindentation *)

Lemma strip_leading_space_head (s : str) :
  starts_with_space (strip_leading_space s) = false.
Proof.
  induction s as [ | c t IH]; simpl; [ reflexivity | ].
  destruct (is_space c) eqn:Hc; [ exact IH | simpl; exact Hc ].
Qed.

(** X1. The padding of the current line is its longest prefix of
    whitespace: the line is the padding followed by a text that does
    not begin with whitespace. *)
Theorem getCurrentLinePadding_longest_space_prefix :
  forall e : zen_editor,
    exists rest,
      getCurrentLine e = getCurrentLinePadding e ++ rest
      /\ forallb is_space (getCurrentLinePadding e) = true
      /\ starts_with_space rest = false.
Proof.
  intros e. unfold getCurrentLinePadding.
  change re_padding with re_leading_space. rewrite exec_leading_space.
  destruct (starts_with_space (getCurrentLine e)) eqn:Hs.
  - exists (strip_leading_space (getCurrentLine e)).
    split; [ apply leading_space_split | ].
    split; [ apply leading_space_all | apply strip_leading_space_head ].
  - exists (getCurrentLine e). repeat split. exact Hs.
Qed.

Lemma match_here_literal (pad : str) :
  forall bol line,
    match_here (regex_of_literal pad) bol line = remove_prefix pad line.
Proof.
  induction pad as [ | c pad' IH]; intros bol line.
  - destruct line; reflexivity.
  - destruct pad' as [ | d pad''].
    + destruct line as [ | x t]; [ reflexivity | ].
      unfold match_here. simpl.
      destruct (Ascii.eqb x c); [ now destruct t | reflexivity ].
    + destruct line as [ | x t]; [ reflexivity | ].
      unfold match_here.
      change (regex_of_literal (c :: d :: pad''))
        with (RSeq (RChr c) (regex_of_literal (d :: pad''))).
      cbn [rmatch remove_prefix].
      destruct (Ascii.eqb x c); [ | reflexivity ].
      apply (IH false t).
Qed.

Lemma remove_prefix_app (pad line rest : str) :
  remove_prefix pad line = Some rest -> line = pad ++ rest.
Proof.
  revert line. induction pad as [ | c pad' IH]; intros line H.
  - simpl in H. now injection H as ->.
  - destruct line as [ | x t]; [ discriminate | ].
    simpl in H. destruct (Ascii.eqb_spec x c) as [-> | _];
      [ | discriminate ].
    simpl. f_equal. now apply IH.
Qed.

Lemma remove_prefix_of_app (pad rest : str) :
  remove_prefix pad (pad ++ rest) = Some rest.
Proof.
  induction pad as [ | c pad' IH]; [ reflexivity | ].
  simpl. now rewrite Ascii.eqb_refl.
Qed.

Lemma substr_from_length_app (pad rest : str) :
  substr_from (pad ++ rest) (js_length pad) = rest.
Proof.
  unfold substr_from, substr, js_length.
  destruct (Z.ltb_spec (Z.of_nat (length pad)) 0) as [H | _]; [ lia | ].
  rewrite !Nat2Z.id, skipn_length_app.
  apply firstn_all2. rewrite length_app. lia.
Qed.

(** The test [lines[i].search(pad) == 0] asks whether the line begins
    with the padding. *)
Lemma unindent_line_without_prefix (pad line : str) :
  unindent_line pad line = without_prefix pad line.
Proof.
  unfold unindent_line, without_prefix, regex_search, exec.
  destruct (remove_prefix pad line) as [rest | ] eqn:Hp.
  - pose proof (remove_prefix_app _ _ Hp) as Hl. subst line.
    destruct (pad ++ rest) as [ | c l] eqn:E.
    + cbn [exec_from]. rewrite match_here_literal, Hp.
      simpl. rewrite <- E. apply substr_from_length_app.
    + cbn [exec_from]. rewrite match_here_literal, Hp.
      simpl. rewrite <- E. apply substr_from_length_app.
  - destruct line as [ | c l].
    + cbn [exec_from]. rewrite match_here_literal, Hp. reflexivity.
    + cbn [exec_from]. rewrite match_here_literal, Hp.
      destruct (exec_from (regex_of_literal pad) false ([] ++ [c]) l)
        as [[[b m] rest] | ] eqn:E; [ | reflexivity ].
      apply exec_from_before in E. simpl in E.
      destruct (Z.eqb_spec (js_length b) 0) as [H0 | _];
        [ unfold js_length in H0; lia | reflexivity ].
Qed.

(** X2. [unindent] works line by line and keeps the number of lines:
    a line that begins with the padding of the current line loses
    exactly that prefix, every other line is kept as it is, and the
    lines are joined again with the newline of the core. *)
Theorem unindent_line_by_line :
  forall (env : zen_env) (e : zen_editor) (text : str),
    exists lines,
      length lines = length (splitByLines env text)
      /\ unindent env e text = join (getNewline env) lines
      /\ forall i line,
           nth_error (splitByLines env text) i = Some line ->
           (forall rest, line = getCurrentLinePadding e ++ rest ->
                         nth_error lines i = Some rest)
           /\ (remove_prefix (getCurrentLinePadding e) line = None ->
               nth_error lines i = Some line).
Proof.
  intros env e text.
  exists (map (unindent_line (getCurrentLinePadding e))
              (splitByLines env text)).
  split; [ apply length_map | split; [ reflexivity | ] ].
  intros i line Hi. rewrite nth_error_map, Hi. simpl.
  rewrite unindent_line_without_prefix. unfold without_prefix.
  split.
  - intros rest ->. now rewrite remove_prefix_of_app.
  - intros ->. reflexivity.
Qed.

(** X3. [unindent] undoes a padding: when every line of the text is
    the padding of the current line followed by some text, the result
    is those texts joined with the newline of the core. *)
Theorem unindent_padded_lines :
  forall (env : zen_env) (e : zen_editor) (text : str) (ls : list str),
    splitByLines env text = map (app (getCurrentLinePadding e)) ls ->
    unindent env e text = join (getNewline env) ls.
Proof.
  intros env e text ls H. unfold unindent. rewrite H. f_equal.
  rewrite map_map. rewrite <- (map_id ls) at 2.
  apply map_ext. intros l.
  rewrite unindent_line_without_prefix. unfold without_prefix.
  now rewrite remove_prefix_of_app.
Qed.

Lemma unindent_padded_lines_two :
  let e := mkEditor (lit "  <p>" ++ [LF] ++ lit "  x</p>")
                    (mkRange 2 13) 2 (lit "html") [] in
  unindent no_tags_env e (lit "  a" ++ [LF] ++ lit "  b")
  = lit "a" ++ [LF] ++ lit "b".
Proof.
  apply (@unindent_padded_lines no_tags_env
           (mkEditor (lit "  <p>" ++ [LF] ++ lit "  x</p>")
                     (mkRange 2 13) 2 (lit "html") [])
           (lit "  a" ++ [LF] ++ lit "  b") [lit "a"; lit "b"]).
  reflexivity.
Defined.

(** ** What the edit-point scanner finds *)

Lemma chr_eqb_eq (a b : option ascii) : chr_eqb a b = true <-> a = b.
Proof.
  destruct a as [x | ], b as [y | ]; simpl; split; intros H;
    try discriminate; try reflexivity.
  - apply Ascii.eqb_eq in H. now subst.
  - injection H as ->. apply Ascii.eqb_refl.
Qed.

Lemma chr_eqb_neq (a b : option ascii) : chr_eqb a b = false <-> a <> b.
Proof.
  split.
  - intros H E. apply chr_eqb_eq in E. congruence.
  - intros H. destruct (chr_eqb a b) eqn:E; [ | reflexivity ].
    apply chr_eqb_eq in E. contradiction.
Qed.

Lemma exec_from_bol_inner (r : regex) (s : str) :
  forall before, exec_from (RSeq RBol r) false before s = None.
Proof.
  induction s as [ | c t IH]; intros before; [ reflexivity | ].
  simpl. apply IH.
Qed.

Lemma match_spaces_eol_all (s : str) :
  forall n bol,
    match_spaces n bol s
      (fun b s' => rmatch REol b s' (fun _ rest => Some rest))
    = if forallb is_space s && Nat.leb n (length s) then Some [] else None.
Proof.
  induction s as [ | c t IH]; intros n bol.
  - destruct n; reflexivity.
  - cbn [match_spaces forallb length].
    destruct (is_space c) eqn:Hc; cbn [andb].
    + rewrite IH.
      replace (Nat.leb n (S (length t))) with (Nat.leb (Nat.pred n) (length t))
        by (destruct n; reflexivity).
      destruct (forallb is_space t && Nat.leb (Nat.pred n) (length t));
        [ reflexivity | ].
      destruct n; reflexivity.
    + destruct n; reflexivity.
Qed.

(** [/^\s+$/] tests for a text that is not empty and holds whitespace
    only. *)
Lemma regex_test_empty_line (s : str) :
  regex_test re_empty_line s
  = negb (str_eqb s []) && forallb is_space s.
Proof.
  unfold regex_test, exec, re_empty_line.
  destruct s as [ | c t]; [ reflexivity | ].
  cbn [exec_from]. unfold match_here. cbn [rmatch].
  rewrite match_spaces_eol_all. rewrite exec_from_bol_inner.
  change (negb (str_eqb (c :: t) [])) with true.
  cbn [andb length Nat.leb]. rewrite andb_true_r.
  destruct (forallb is_space (c :: t)); reflexivity.
Qed.

Lemma DQUOTE_SQUOTE_cases (x : option ascii) :
  chr_eqb x (Some DQUOTE) || chr_eqb x (Some SQUOTE) = true ->
  exists q, (q = DQUOTE \/ q = SQUOTE) /\ x = Some q.
Proof.
  intros H. apply orb_prop in H. destruct H as [H | H];
    apply chr_eqb_eq in H; eauto.
Qed.

Lemma charAt_app_length (pre rest : str) (c : ascii) :
  charAt (pre ++ c :: rest) (js_length pre) = Some c.
Proof.
  unfold charAt, js_length.
  destruct (Z.ltb_spec (Z.of_nat (length pre)) 0) as [H | _]; [ lia | ].
  rewrite Nat2Z.id. rewrite nth_error_app2 by lia.
  now rewrite Nat.sub_diag.
Qed.

Lemma is_newline_space (t : ascii) :
  is_newline t = true -> is_space t = true.
Proof.
  unfold is_newline. intros H. apply orb_prop in H.
  destruct H as [H | H]; apply Ascii.eqb_eq in H; subst; reflexivity.
Qed.

Lemma single_line_snoc (s : str) (d : ascii) :
  single_line (s ++ [d]) = true ->
  single_line s = true /\ is_newline d = false.
Proof.
  unfold single_line. rewrite forallb_app. intros H.
  apply andb_prop in H. destruct H as [Hs Hd]. simpl in Hd.
  rewrite andb_true_r in Hd. apply negb_true_iff in Hd. now split.
Qed.

(** The loop of [getLine] stops on the last line terminator at or
    before the offset it starts from, or at -1. *)
Lemma getLine_start_spec (tail : str) :
  forall head post fuel,
    single_line tail = true ->
    (head = [] \/ exists h t, head = h ++ [t] /\ is_newline t = true) ->
    (length tail + match head with [] => 0 | _ :: _ => 1 end <= fuel)%nat ->
    getLine_start (head ++ tail ++ post) fuel
                  (js_length head + js_length tail - 1)
    = js_length head - 1.
Proof.
  induction tail as [ | d tl IH] using rev_ind;
    intros head post fuel Hline Hhead Hfuel.
  - change (js_length []) with 0. rewrite Z.add_0_r.
    destruct Hhead as [-> | [h [t [-> Ht]]]].
    + destruct fuel; reflexivity.
    + destruct fuel as [ | k];
        [ destruct h; simpl in Hfuel; lia | ].
      cbn [getLine_start].
      replace (js_length (h ++ [t]) - 1) with (js_length h)
        by (unfold js_length; rewrite length_app; simpl; lia).
      replace (js_length h >=? 0) with true
        by (symmetry; apply Z.geb_le; unfold js_length; lia).
      rewrite <- app_assoc. cbn [app].
      rewrite charAt_app_length. cbn [chr_eqb].
      unfold is_newline in Ht. now rewrite Ht.
  - apply single_line_snoc in Hline. destruct Hline as [Hline Hd].
    destruct fuel as [ | k];
      [ rewrite length_app in Hfuel; simpl in Hfuel; lia | ].
    cbn [getLine_start].
    replace (js_length head + js_length (tl ++ [d]) - 1)
      with (js_length (head ++ tl))
      by (unfold js_length; rewrite !length_app; simpl; lia).
    replace (js_length (head ++ tl) >=? 0) with true
      by (symmetry; apply Z.geb_le; unfold js_length; lia).
    replace (head ++ (tl ++ [d]) ++ post)
      with ((head ++ tl) ++ d :: post)
      by (rewrite <- !app_assoc; reflexivity).
    rewrite charAt_app_length. cbn [chr_eqb].
    unfold is_newline in Hd. rewrite Hd.
    replace ((head ++ tl) ++ d :: post) with (head ++ tl ++ (d :: post))
      by (rewrite <- !app_assoc; reflexivity).
    replace (js_length (head ++ tl) - 1)
      with (js_length head + js_length tl - 1)
      by (unfold js_length; rewrite length_app; lia).
    apply IH; try assumption.
    rewrite length_app in Hfuel. simpl in Hfuel. lia.
Qed.

Lemma substring_negative_start (s : str) (b : Z) :
  substring s (-1) b = substring s 0 b.
Proof. reflexivity. Qed.

(** What [getLine] returns before the last character [d] of a line:
    the line terminator before the line, if there is one, and the line
    without [d]. *)
Lemma getLine_line (head body post : str) (d : ascii) :
  single_line (body ++ [d]) = true ->
  (head = [] \/ exists h t, head = h ++ [t] /\ is_newline t = true) ->
  getLine (head ++ (body ++ [d]) ++ post)
          (js_length head + js_length (body ++ [d]) - 1)
  = match rev head with t :: _ => [t] | [] => [] end ++ body.
Proof.
  intros Hline Hhead. unfold getLine.
  rewrite getLine_start_spec; try assumption.
  - destruct Hhead as [-> | [h [t [-> Ht]]]].
    + cbn [rev app]. change (js_length [] - 1) with (-1).
      rewrite substring_negative_start.
      replace (js_length [] + js_length (body ++ [d]) - 1)
        with (js_length body)
        by (unfold js_length; rewrite length_app; simpl; lia).
      rewrite <- app_assoc.
      apply (@substring_pre body [d] post).
    + rewrite rev_unit.
      replace (js_length (h ++ [t]) - 1) with (js_length h)
        by (unfold js_length; rewrite length_app; simpl; lia).
      replace (js_length (h ++ [t]) + js_length (body ++ [d]) - 1)
        with (js_length h + js_length ([t] ++ body))
        by (unfold js_length; rewrite !length_app; simpl; lia).
      replace ((h ++ [t]) ++ (body ++ [d]) ++ post)
        with (h ++ ([t] ++ body) ++ (d :: post))
        by (rewrite <- !app_assoc; reflexivity).
      apply substring_mid.
  - replace (js_length head + js_length (body ++ [d]) - 1 + 1)
      with (Z.of_nat (length head + length (body ++ [d])))
      by (unfold js_length; lia).
    rewrite Nat2Z.id. destruct head; simpl; lia.
Qed.

Lemma getLine_no_line (h post : str) (t : ascii) :
  is_newline t = true ->
  getLine ((h ++ [t]) ++ post) (js_length (h ++ [t]) - 1) = [].
Proof.
  intros Ht. unfold getLine.
  pose proof (@getLine_start_spec [] (h ++ [t]) post
                (Z.to_nat (js_length (h ++ [t]) - 1 + 1)) eq_refl) as H.
  change (js_length []) with 0 in H. rewrite Z.add_0_r in H.
  cbn [app] in H. rewrite H.
  - replace (js_length (h ++ [t]) - 1) with (js_length h)
      by (unfold js_length; rewrite length_app; simpl; lia).
    rewrite <- app_assoc.
    pose proof (@substring_mid h [] ([t] ++ post)) as Hs.
    change (js_length []) with 0 in Hs. now rewrite Z.add_0_r in Hs.
  - right. now exists h, t.
  - unfold js_length. rewrite length_app. simpl.
    destruct (h ++ [t]) eqn:E; [ destruct h; discriminate | ]. lia.
Qed.

Lemma split_last_line (s : str) :
  exists head tail,
    s = head ++ tail
    /\ single_line tail = true
    /\ (head = [] \/ exists h t, head = h ++ [t] /\ is_newline t = true).
Proof.
  induction s as [ | x s' IH] using rev_ind.
  - exists [], []. repeat split. now left.
  - destruct (is_newline x) eqn:Hx.
    + exists (s' ++ [x]), []. rewrite app_nil_r.
      repeat split. right. now exists s', x.
    + destruct IH as [head [tail [E [Hl Hh]]]].
      exists head, (tail ++ [x]). split; [ | split ].
      * rewrite E. now rewrite app_assoc.
      * unfold single_line in *. rewrite forallb_app, Hl. simpl.
        now rewrite Hx.
      * exact Hh.
Qed.

(** The test [re_empty_line.test(getLine(c - 1))] of the scanner, for
    an offset [c] of the text, told without [getLine]. *)
Lemma getLine_test_spec (content : str) (c : Z) :
  0 <= c <= js_length content ->
  negb (str_eqb (getLine content (c - 1)) [])
  && forallb is_space (getLine content (c - 1)) = true
  <-> line_taken_for_blank content c.
Proof.
  intros Hc.
  assert (Hlen : Z.of_nat (length (firstn (Z.to_nat c) content)) = c)
    by (rewrite length_firstn; unfold js_length in Hc; lia).
  pose proof (firstn_skipn (Z.to_nat c) content) as Hcat.
  split.
  - intros H. apply andb_prop in H. destruct H as [Hne Hall].
    apply negb_true_iff, str_eqb_neq in Hne.
    destruct (split_last_line (firstn (Z.to_nat c) content))
      as [head [tail [E [Hl Hh]]]].
    destruct tail as [ | d0 tl0] using rev_ind.
    + exfalso. apply Hne. rewrite app_nil_r in E.
      destruct Hh as [-> | [h [t [-> Ht]]]].
      * rewrite E in Hlen. simpl in Hlen. subst c.
        unfold getLine.
        change (Z.to_nat (0 - 1 + 1)) with 0%nat.
        cbn [getLine_start]. unfold substring. cbv zeta.
        rewrite Nat.max_id, Nat.min_id, Nat.sub_diag. reflexivity.
      * rewrite <- Hcat, E. rewrite E in Hlen.
        rewrite <- Hlen. now apply getLine_no_line.
    + clear IHtl0. rename tl0 into body. rename d0 into d.
      assert (Hg : getLine content (c - 1)
                   = match rev head with t :: _ => [t] | [] => [] end
                     ++ body).
      { rewrite <- Hcat, E. rewrite E in Hlen.
        replace (c - 1)
          with (js_length head + js_length (body ++ [d]) - 1)
          by (unfold js_length; rewrite length_app in Hlen; lia).
        rewrite <- app_assoc. now apply getLine_line. }
      rewrite Hg in Hne, Hall.
      exists head, body, d. split; [ exact E | ].
      split; [ | split; [ exact Hl | ] ].
      * destruct Hh as [-> | [h [t [-> Ht]]]].
        -- left. split; [ reflexivity | ]. exact Hne.
        -- right. now exists h, t.
      * rewrite forallb_app in Hall. apply andb_prop in Hall. tauto.
  - intros [head [body [d [E [Hh [Hl Hb]]]]]].
    assert (Hh' : head = []
                  \/ exists h t, head = h ++ [t] /\ is_newline t = true)
      by (destruct Hh as [[-> _] | Hh]; [ now left | now right ]).
    assert (Hg : getLine content (c - 1)
                 = match rev head with t :: _ => [t] | [] => [] end
                   ++ body).
    { rewrite <- Hcat, E. rewrite E in Hlen.
      replace (c - 1)
        with (js_length head + js_length (body ++ [d]) - 1)
        by (unfold js_length; rewrite length_app in Hlen; lia).
      rewrite <- app_assoc. now apply getLine_line. }
    rewrite Hg.
    destruct Hh as [[-> Hne] | [h [t [-> Ht]]]].
    + cbn [rev app]. rewrite Hb, andb_true_r.
      apply negb_true_iff, str_eqb_neq. exact Hne.
    + rewrite rev_unit. cbn [app forallb].
      rewrite (is_newline_space _ Ht), Hb. reflexivity.
Qed.

(** The [switch] at offset [c]: it returns [c + 1] for an edit point
    between tags or in an empty attribute right after [c], it returns
    [c] for the end of a blank line at [c], and it returns -1 exactly
    when there is none of these. *)
Lemma scan_point_spec (content : str) (c : Z) :
  (scan_point content c = c + 1
   /\ (between_tags content (c + 1) \/ empty_attribute content (c + 1)))
  \/ (scan_point content c = c /\ blank_line_end content c)
  \/ (scan_point content c = -1 /\ ~ edit_point_seen_at content c).
Proof.
  unfold scan_point, edit_point_seen_at, between_tags, empty_attribute,
    blank_line_end.
  replace (c + 1 - 1) with c by lia.
  replace (c + 1 - 2) with (c - 1) by lia.
  destruct (chr_eqb (charAt content c) (Some DQUOTE)
            || chr_eqb (charAt content c) (Some SQUOTE)) eqn:Hq.
  - destruct (DQUOTE_SQUOTE_cases _ Hq) as [q [Hqq Hc]].
    destruct (chr_eqb (charAt content (c + 1)) (charAt content c)
              && chr_eqb (charAt content (c - 1)) (Some "="%char)) eqn:Ha.
    + left. split; [ reflexivity | right ].
      apply andb_prop in Ha. destruct Ha as [Hn Hp].
      apply chr_eqb_eq in Hn, Hp. exists q. rewrite Hn, Hc. auto.
    + right. right. split; [ reflexivity | ].
      intros [[H1 _] | [[q' [_ [H1 [H2 H3]]]] | [[H1 | H1] _]]].
      * rewrite Hc in H1. destruct Hqq; subst q; discriminate.
      * rewrite H1, H2, H3 in Ha. simpl in Ha.
        rewrite Ascii.eqb_refl in Ha. discriminate.
      * rewrite Hc in H1. destruct Hqq; subst q; discriminate.
      * rewrite Hc in H1. destruct Hqq; subst q; discriminate.
  - apply orb_false_elim in Hq. destruct Hq as [Hd Hs].
    apply chr_eqb_neq in Hd, Hs.
    destruct (chr_eqb (charAt content c) (Some ">"%char)) eqn:Hg.
    + apply chr_eqb_eq in Hg.
      destruct (chr_eqb (charAt content (c + 1)) (Some "<"%char)) eqn:Hl.
      * apply chr_eqb_eq in Hl. left. split; [ reflexivity | now left ].
      * apply chr_eqb_neq in Hl. right. right. split; [ reflexivity | ].
        intros [[_ H1] | [[q' [Hq' [_ [H2 _]]]] | [[H1 | H1] _]]].
        -- contradiction.
        -- rewrite Hg in H2. destruct Hq'; subst q'; discriminate.
        -- rewrite Hg in H1. discriminate.
        -- rewrite Hg in H1. discriminate.
    + apply chr_eqb_neq in Hg.
      destruct (chr_eqb (charAt content c) (Some LF)
                || chr_eqb (charAt content c) (Some CR)) eqn:Hn.
      * rewrite regex_test_empty_line.
        assert (Hnl : charAt content c = Some LF
                      \/ charAt content c = Some CR).
        { apply orb_prop in Hn.
          destruct Hn as [Hn | Hn]; apply chr_eqb_eq in Hn; auto. }
        assert (Hin : 0 <= c <= js_length content)
          by (destruct Hnl as [Hx | Hx];
              apply charAt_Some_bounds in Hx; lia).
        pose proof (getLine_test_spec content Hin) as Hspec.
        destruct (negb (str_eqb (getLine content (c - 1)) [])
                  && forallb is_space (getLine content (c - 1))) eqn:Hb.
        -- right. left. split; [ reflexivity | ].
           split; [ exact Hnl | now apply Hspec ].
        -- right. right. split; [ reflexivity | ].
           intros [[H1 _] | [[q' [Hq' [_ [H2 _]]]] | [_ H1]]].
           ++ congruence.
           ++ destruct Hq'; subst q'; congruence.
           ++ apply Hspec in H1. discriminate.
      * apply orb_false_elim in Hn. destruct Hn as [Hn1 Hn2].
        apply chr_eqb_neq in Hn1, Hn2.
        right. right. split; [ reflexivity | ].
        intros [[H1 _] | [[q' [Hq' [_ [H2 _]]]] | [[H1 | H1] _]]].
        -- congruence.
        -- destruct Hq'; subst q'; congruence.
        -- congruence.
        -- congruence.
Qed.

Lemma scan_point_found (content : str) (c : Z) :
  scan_point content c <> -1 ->
  edit_point content (scan_point content c)
  /\ edit_point_seen_at content c.
Proof.
  intros H. unfold edit_point, edit_point_seen_at.
  destruct (scan_point_spec content c)
    as [[E [Hb | Ha]] | [[E Hn] | [E _]]]; rewrite ?E; tauto.
Qed.

Lemma scan_point_none (content : str) (c : Z) :
  scan_point content c = -1 -> ~ edit_point_seen_at content c.
Proof.
  intros H.
  destruct (scan_point_bounds content c) as [_ | [Hb _]].
  - destruct (scan_point_spec content c)
      as [[E _] | [[E Hn] | [_ Hn]]]; [ | | exact Hn ].
    + intros [[_ H1] | [[q [_ [_ [_ H1]]]] | [[H1 | H1] _]]];
        apply charAt_Some_bounds in H1; lia.
    + destruct Hn as [[H1 | H1] _]; apply charAt_Some_bounds in H1; lia.
  - destruct (scan_point_spec content c)
      as [[E _] | [[E _] | [_ Hn]]]; [ lia | lia | exact Hn ].
Qed.

(** The end of a line of one character is taken for the end of a blank
    line whatever the character is, when the line is not the first of
    the text: the scanner stops after [y]. *)
Example blank_line_end_one_char_line :
  blank_line_end [ "x"%char; LF; "y"%char; LF; "z"%char ] 3
  /\ findNewEditPoint
       (mkEditor [ "x"%char; LF; "y"%char; LF; "z"%char ]
                 (mkRange 1 1) 1 (lit "html") [])
       (Some 1) None = Some 3.
Proof.
  split; [ | reflexivity ].
  split; [ now left | ].
  exists [ "x"%char; LF ], [], "y"%char.
  split; [ reflexivity | ]. split; [ | split; reflexivity ].
  right. now exists [ "x"%char ], LF.
Qed.

(** A first line of a single space is not taken for blank: a search to
    the left from the second line finds nothing. *)
Example blank_line_end_first_line_of_one_space :
  ~ blank_line_end (" "%char :: LF :: lit "abc") 1
  /\ findNewEditPoint
       (mkEditor (" "%char :: LF :: lit "abc") (mkRange 3 3) 3
                 (lit "html") [])
       (Some (-1)) None = Some (-1).
Proof.
  split; [ | reflexivity ].
  intros [_ [head [body [d [E [Hh _]]]]]].
  change (firstn (Z.to_nat 1) (" "%char :: LF :: lit "abc"))
    with [ " "%char ] in E.
  destruct Hh as [[-> Hb] | [h [t [-> Ht]]]].
  - destruct body as [ | x body]; [ now apply Hb | ].
    destruct body; discriminate.
  - destruct h as [ | y h]; [ | destruct h; discriminate ].
    destruct body; discriminate.
Qed.

Section FirstEditPoint.
Variable content : str.
Variable inc : Z.

(** The loop returns what the [switch] finds at the first offset where
    it finds something, and -1 when it finds nothing at any offset it
    comes to. *)
Lemma edit_point_loop_first (fuel : nat) :
  forall start r,
    edit_point_loop content inc fuel start = Some r ->
    (r = -1
     /\ forall j, 1 <= j -> takes_turn content start inc j ->
                  scan_point content (start + j * inc) = -1)
    \/ (r <> -1
        /\ exists k, 1 <= k
           /\ takes_turn content start inc k
           /\ r = scan_point content (start + k * inc)
           /\ forall j, 1 <= j < k ->
                        scan_point content (start + j * inc) = -1).
Proof.
  induction fuel as [ | n IH]; intros start r H.
  - destruct ((start <? js_length content) && (start >? 0)) eqn:Hc;
      simpl in H; rewrite Hc in H; [ discriminate | ].
    injection H as <-. left. split; [ reflexivity | ].
    intros j Hj Ht. exfalso.
    specialize (Ht 0 ltac:(lia)). rewrite Z.mul_0_l, Z.add_0_r in Ht.
    apply andb_false_iff in Hc.
    destruct Hc as [Hc | Hc];
      [ apply Z.ltb_ge in Hc
      | rewrite Z.gtb_ltb in Hc; apply Z.ltb_ge in Hc ]; lia.
  - simpl in H.
    destruct ((start <? js_length content) && (start >? 0)) eqn:Hc.
    + apply andb_prop in Hc. destruct Hc as [H1 H2].
      apply Z.ltb_lt in H1. apply Z.gtb_lt in H2.
      destruct (Z.eqb_spec (scan_point content (start + inc)) (-1))
        as [Hs | Hs]; simpl in H.
      * destruct (IH _ _ H) as [[Hr Hall] | [Hr [k [Hk [Ht [Hrk Hb]]]]]].
        -- left. split; [ exact Hr | ].
           intros j Hj Ht.
           destruct (Z.eq_dec j 1) as [-> | Hj1];
             [ now rewrite Z.mul_1_l | ].
           replace (start + j * inc)
             with (start + inc + (j - 1) * inc) by ring.
           apply Hall; [ lia | ].
           intros m Hm. specialize (Ht (m + 1) ltac:(lia)).
           replace (start + inc + m * inc)
             with (start + (m + 1) * inc) by ring. exact Ht.
        -- right. split; [ exact Hr | ].
           exists (k + 1). split; [ lia | ]. split; [ | split ].
           ++ intros m Hm. destruct (Z.eq_dec m 0) as [-> | Hm0].
              ** rewrite Z.mul_0_l, Z.add_0_r. lia.
              ** specialize (Ht (m - 1) ltac:(lia)).
                 replace (start + m * inc)
                   with (start + inc + (m - 1) * inc) by ring. exact Ht.
           ++ rewrite Hrk. f_equal. ring.
           ++ intros j Hj. destruct (Z.eq_dec j 1) as [-> | Hj1];
                [ now rewrite Z.mul_1_l | ].
              replace (start + j * inc)
                with (start + inc + (j - 1) * inc) by ring.
              apply Hb. lia.
      * injection H as <-. right. split; [ exact Hs | ].
        exists 1. split; [ lia | ]. split; [ | split ].
        -- intros m Hm. replace m with 0 by lia.
           rewrite Z.mul_0_l, Z.add_0_r. lia.
        -- now rewrite Z.mul_1_l.
        -- intros j Hj. lia.
    + injection H as <-. left. split; [ reflexivity | ].
      intros j Hj Ht. exfalso.
      specialize (Ht 0 ltac:(lia)). rewrite Z.mul_0_l, Z.add_0_r in Ht.
      apply andb_false_iff in Hc.
      destruct Hc as [Hc | Hc];
        [ apply Z.ltb_ge in Hc
      | rewrite Z.gtb_ltb in Hc; apply Z.ltb_ge in Hc ]; lia.
Qed.
End FirstEditPoint.

Lemma findNewEditPoint_returns_edit_point_aux
      (e : zen_editor) (inc offset : option Z) (p : Z) :
  findNewEditPoint e inc offset = Some p -> p <> -1 ->
  edit_point (getContent e) p.
Proof.
  intros H Hp. unfold findNewEditPoint in H.
  apply edit_point_loop_first in H.
  destruct H as [[Hr _] | [_ [k [_ [_ [Hrk _]]]]]]; [ contradiction | ].
  subst p. now apply scan_point_found.
Qed.

(** X4. An offset [findNewEditPoint] returns, other than -1, is an edit
    point of the text: it lies between a [>] and a [<], or between the
    two quotes of an empty attribute value that follows [=], or on a
    line terminator that ends a line of at least one character whose
    characters, the last one apart, are all whitespace (the last
    character is not looked at; on the first line of the text a
    whitespace character must come before it). *)
Theorem findNewEditPoint_returns_edit_point :
  forall (e : zen_editor) (inc offset : option Z) (p : Z),
    findNewEditPoint e inc offset = Some p ->
    p <> -1 ->
    edit_point (getContent e) p.
Proof.
  intros e inc offset p H Hp.
  eapply findNewEditPoint_returns_edit_point_aux; eassumption.
Qed.

Lemma findNewEditPoint_returns_edit_point_tags :
  edit_point (lit "<a><b>") 3.
Proof.
  apply (@findNewEditPoint_returns_edit_point
           (editor_on "html" "<a><b>" 0 0 1) (Some 1) None 3).
  - reflexivity.
  - discriminate.
Defined.

(** X5. [findNewEditPoint] stops at the first offset on its way where
    it sees an edit point: it goes from the start offset in steps of
    [inc] while it is strictly inside the text; it returns -1 only when
    it sees no edit point at any offset it comes to, and otherwise what
    it returns belongs to the first such offset [c] (it is [c] or
    [c + 1]). At [c] it sees the edit point [c + 1] between tags or in
    an empty attribute, or the edit point [c] on a line terminator that
    ends a line whose characters, the last one apart, are whitespace
    (with a whitespace character before the last one on the first line
    of the text). *)
Theorem findNewEditPoint_first_on_the_way :
  forall (e : zen_editor) (inc offset : option Z),
    let content := getContent e in
    let start := getCaretPos e + num_or offset 0 in
    let step := num_or inc 1 in
    exists r,
      findNewEditPoint e inc offset = Some r
      /\ ((r = -1
           /\ forall j, 1 <= j -> takes_turn content start step j ->
                        ~ edit_point_seen_at content (start + j * step))
          \/ (exists k,
                 1 <= k
                 /\ takes_turn content start step k
                 /\ edit_point_seen_at content (start + k * step)
                 /\ (forall j, 1 <= j < k ->
                        ~ edit_point_seen_at content (start + j * step))
                 /\ (r = start + k * step \/ r = start + k * step + 1))).
Proof.
  intros e inc offset content start step.
  destruct (findNewEditPoint_total e inc offset) as [r [Hr _]].
  exists r. split; [ exact Hr | ].
  unfold findNewEditPoint in Hr. apply edit_point_loop_first in Hr.
  fold content start step in Hr.
  destruct Hr as [[Hm Hall] | [Hm [k [Hk [Ht [Hrk Hb]]]]]].
  - left. split; [ exact Hm | ].
    intros j Hj Htj. apply scan_point_none. now apply Hall.
  - right. exists k.
    split; [ exact Hk | split; [ exact Ht | split; [ | split ] ] ].
    + rewrite Hrk in Hm. now apply scan_point_found in Hm.
    + intros j Hj. apply scan_point_none. now apply Hb.
    + rewrite Hrk in *.
      destruct (scan_point_bounds content (start + k * step))
        as [E | [_ [Hb' _]]]; [ contradiction | ].
      destruct (scan_point_spec content (start + k * step))
        as [[E _] | [[E _] | [E _]]]; auto. contradiction.
Qed.

(** A search to the left returns an offset that is not to the right of
    its start. *)
Lemma findNewEditPoint_left (e : zen_editor) (offset : option Z) (r : Z) :
  findNewEditPoint e (Some (-1)) offset = Some r -> r <> -1 ->
  0 <= r <= getCaretPos e + num_or offset 0.
Proof.
  intros H Hr.
  destruct (findNewEditPoint_total e (Some (-1)) offset) as [r' [Hr' Hok]].
  rewrite H in Hr'. injection Hr' as <-.
  destruct Hok as [Hok | [Hb _]]; [ contradiction | ].
  split; [ lia | ].
  unfold findNewEditPoint in H. apply edit_point_loop_first in H.
  destruct H as [[Hm _] | [_ [k [Hk [_ [Hrk _]]]]]]; [ contradiction | ].
  simpl num_or in Hrk.
  destruct (scan_point_bounds (getContent e)
              (getCaretPos e + num_or offset 0 + k * -1))
    as [E | [_ [Hb' _]]]; [ congruence | ].
  rewrite <- Hrk in Hb'. lia.
Qed.

(** X6. [prevEditPoint] returns; it moves the caret strictly to the
    left, to an edit point of the text as the scanner knows them
    (between tags, in an empty attribute, or on the line terminator of
    a line whose characters, the last one apart, are whitespace), or it
    leaves the editor as it is. The text and the selection are never
    changed. *)
Theorem prevEditPoint_moves_left :
  forall e : zen_editor,
    exists e',
      prevEditPoint e = Some e'
      /\ (e' = e
          \/ exists p, 0 <= p < getCaretPos e
                       /\ edit_point (getContent e) p
                       /\ e' = setCaretPos p e).
Proof.
  intros e. unfold prevEditPoint.
  destruct (findNewEditPoint_total e (Some (-1)) None) as [r1 [H1 _]].
  rewrite H1.
  destruct (Z.eqb_spec r1 (getCaretPos e)) as [E | E].
  - destruct (findNewEditPoint_total e (Some (-1)) (Some (-2)))
      as [r2 [H2 _]].
    rewrite H2.
    destruct (Z.eqb_spec r2 (-1)) as [M | M]; simpl.
    + exists e. split; [ reflexivity | now left ].
    + exists (setCaretPos r2 e). split; [ reflexivity | right ].
      exists r2. pose proof (findNewEditPoint_left _ _ H2 M) as Hb.
      simpl num_or in Hb.
      split; [ lia | split; [ | reflexivity ] ].
      eapply findNewEditPoint_returns_edit_point_aux; eassumption.
  - destruct (Z.eqb_spec r1 (-1)) as [M | M]; simpl.
    + exists e. split; [ reflexivity | now left ].
    + exists (setCaretPos r1 e). split; [ reflexivity | right ].
      exists r1. pose proof (findNewEditPoint_left _ _ H1 M) as Hb.
      simpl num_or in Hb.
      split; [ lia | split; [ | reflexivity ] ].
      eapply findNewEditPoint_returns_edit_point_aux; eassumption.
Qed.

(** X7. [nextEditPoint] returns; it moves the caret strictly to the
    right, to an edit point inside the text as the scanner knows them
    (between tags, in an empty attribute, or on the line terminator of
    a line whose characters, the last one apart, are whitespace), or it
    leaves the editor as it is. The text and the selection are never
    changed. *)
Theorem nextEditPoint_moves_right :
  forall e : zen_editor,
    exists e',
      nextEditPoint e = Some e'
      /\ (e' = e
          \/ exists p, getCaretPos e < p <= js_length (getContent e)
                       /\ edit_point (getContent e) p
                       /\ e' = setCaretPos p e).
Proof.
  intros e. unfold nextEditPoint.
  destruct (findNewEditPoint_total e (Some 1) None) as [r [Hr Hok]].
  rewrite Hr.
  destruct (Z.eqb_spec r (-1)) as [M | M]; simpl.
  - exists e. split; [ reflexivity | now left ].
  - exists (setCaretPos r e). split; [ reflexivity | right ].
    exists r. destruct Hok as [Hok | [Hb Hlt]]; [ contradiction | ].
    simpl in Hlt. specialize (Hlt eq_refl).
    split; [ lia | split; [ | reflexivity ] ].
    eapply findNewEditPoint_returns_edit_point_aux; eassumption.
Qed.

(** ** What the tag-pair actions leave alone *)

Lemma select_range_only_selects (st : state) (cache : match_cache)
      (rng : option (Z * Z)) :
  (fst (select_range st cache rng) = true
   /\ exists a b, a <> -1
        /\ editor (snd (select_range st cache rng))
           = createSelection a b (editor st))
  \/ (fst (select_range st cache rng) = false
      /\ editor (snd (select_range st cache rng)) = editor st).
Proof.
  unfold select_range. destruct rng as [[a b] | ]; [ | now right ].
  destruct (Z.eqb_spec a (-1)) as [E | E]; simpl; [ now right | left ].
  split; [ reflexivity | ]. exists a, b. now split.
Qed.

(** X8. [matchPair] only ever selects: it returns [true] exactly when
    it has made one [createSelection] call, with a start other than
    -1, and otherwise leaves the editor as it is. The text, the caret
    and the syntax are never changed. *)
Theorem matchPair_only_selects :
  forall (env : zen_env) (direction : option str) (st : state),
    (fst (matchPair env direction st) = true
     /\ exists a b, a <> -1
          /\ editor (snd (matchPair env direction st))
             = createSelection a b (editor st))
    \/ (fst (matchPair env direction st) = false
        /\ editor (snd (matchPair env direction st)) = editor st).
Proof.
  intros env direction st. unfold matchPair.
  repeat
    match goal with
    | |- context [let (_, _) := ?x in _] => destruct x
    | |- context [match ?x with Some _ => _ | None => _ end] =>
        destruct x
    | |- context [if ?b then _ else _] => destruct b
    end;
    try apply select_range_only_selects.
  now right.
Qed.

(** X9. [goToMatchingPair] only ever moves the caret, and only after a
    match with a closing tag. It asks the tag matcher once, at the
    caret, or one past it when the caret is on a [<], and leaves the
    matcher's cache. When the matcher reports no range, or a range
    that starts at -1, or leaves no closing tag (a unary tag), the
    editor stays as it was. After a match with both tags, the caret is
    set to the start of the closing tag when the offset asked is on
    the opening tag, to the start of the opening tag when it is on the
    closing tag and not on the opening tag, and the editor stays as it
    was when the offset is on neither. The text and the selection are
    never changed. *)
Theorem goToMatchingPair_only_moves_caret :
  forall (env : zen_env) (st st' : state),
    goToMatchingPair env st = Some st' ->
    let e := editor st in
    let pos := match_caret e in
    let found := HTMLPairMatcher env (getContent e) pos (last_match st) in
    last_match st' = snd found
    /\ (fst found = None -> editor st' = e)
    /\ (forall a b, fst found = Some (a, b) -> a = -1 -> editor st' = e)
    /\ (closing_tag (snd found) = None -> editor st' = e)
    /\ (forall a b open_tag close_tag,
           fst found = Some (a, b) -> a <> -1 ->
           opening_tag (snd found) = Some open_tag ->
           closing_tag (snd found) = Some close_tag ->
           (on_tag open_tag pos ->
            editor st' = setCaretPos (t_start close_tag) e)
           /\ (~ on_tag open_tag pos -> on_tag close_tag pos ->
               editor st' = setCaretPos (t_start open_tag) e)
           /\ (~ on_tag open_tag pos -> ~ on_tag close_tag pos ->
               editor st' = e)).
Proof.
  intros env st st' H e pos found.
  unfold goToMatchingPair in H. cbv zeta in H.
  change (if chr_eqb (charAt (getContent (editor st))
                             (getCaretPos (editor st)))
                     (Some "<"%char)
          then getCaretPos (editor st) + 1
          else getCaretPos (editor st)) with pos in H.
  change (HTMLPairMatcher env (getContent (editor st)) pos
                          (last_match st)) with found in H.
  destruct found as [rng cache]. cbn [fst snd].
  destruct rng as [[a b] | ].
  - destruct (Z.eqb_spec a (-1)) as [Ea | Ea]; cbn [negb] in H.
    + injection H as <-. cbn [editor last_match].
      split; [ reflexivity | ]. split; [ reflexivity | ].
      split; [ reflexivity | ]. split; [ reflexivity | ].
      intros a' b' o c Hr Ha'. injection Hr as <- <-. contradiction.
    + destruct (closing_tag cache) as [close_tag | ] eqn:Hc.
      * destruct (opening_tag cache) as [open_tag | ] eqn:Ho;
          [ | discriminate ].
        assert (Hopen : (t_start open_tag <=? pos)
                        && (t_end open_tag >=? pos) = true
                        <-> on_tag open_tag pos)
          by (unfold on_tag; rewrite andb_true_iff, Z.leb_le, Z.geb_le;
              lia).
        assert (Hclose : (t_start close_tag <=? pos)
                         && (t_end close_tag >=? pos) = true
                         <-> on_tag close_tag pos)
          by (unfold on_tag; rewrite andb_true_iff, Z.leb_le, Z.geb_le;
              lia).
        destruct ((t_start open_tag <=? pos) && (t_end open_tag >=? pos))
          eqn:H1;
          [ | destruct ((t_start close_tag <=? pos)
                        && (t_end close_tag >=? pos)) eqn:H2 ];
          injection H as <-; cbn [editor last_match];
          (split; [ reflexivity | ]);
          (split; [ discriminate | ]);
          (split; [ intros a' b' Hr Ha'; injection Hr as <- <-;
                    contradiction | ]);
          (split; [ discriminate | ]);
          intros a' b' o c _ _ Eo Ec;
          injection Eo as <-; injection Ec as <-;
          (split; [ | split ]).
        -- reflexivity.
        -- intros Hn. exfalso. apply Hn. now apply Hopen.
        -- intros Hn. exfalso. apply Hn. now apply Hopen.
        -- intros Hy. apply Hopen in Hy. discriminate.
        -- reflexivity.
        -- intros _ Hn. exfalso. apply Hn. now apply Hclose.
        -- intros Hy. apply Hopen in Hy. discriminate.
        -- intros _ Hy. apply Hclose in Hy. discriminate.
        -- reflexivity.
      * injection H as <-. cbn [editor last_match].
        split; [ reflexivity | ]. split; [ reflexivity | ].
        split; [ reflexivity | ]. split; [ reflexivity | ].
        intros a' b' o c _ _ _ Ec. discriminate.
  - injection H as <-. cbn [editor last_match].
    split; [ reflexivity | ]. split; [ reflexivity | ].
    split; [ reflexivity | ]. split; [ reflexivity | ].
    intros a' b' o c Hr. discriminate.
Qed.

Lemma goToMatchingPair_only_moves_caret_p :
  let st := mkState (editor_on "html" "<p> x </p>" 0 0 0)
                    (mkCache None None) in
  exists st', goToMatchingPair p_env st = Some st'
              /\ last_match st'
                 = mkCache (Some (mkTag 0 3)) (Some (mkTag 6 10))
              /\ editor st' = setCaretPos 6 (editor st).
Proof.
  eexists. split; [ reflexivity | ].
  destruct (@goToMatchingPair_only_moves_caret p_env
              (mkState (editor_on "html" "<p> x </p>" 0 0 0)
                       (mkCache None None)) _ eq_refl)
    as [Hcache [_ [_ [_ Hmove]]]].
  split; [ exact Hcache | ].
  destruct (Hmove 0 10 (mkTag 0 3) (mkTag 6 10) eq_refl
                  ltac:(discriminate) eq_refl eq_refl) as [Hopen _].
  apply Hopen. split; discriminate.
Defined.

(** X10. Jumping twice comes back. The matcher reports one pair, with
    opening tag [open_tag] and closing tag [close_tag], for every
    offset from the start of the opening tag to the end of the closing
    tag; both tags begin with [<], are not empty, and the opening tag
    ends where the closing tag starts or before. From the start of the
    opening tag [goToMatchingPair] moves the caret to the start of the
    closing tag, and from there back to the start of the opening
    tag. *)
Theorem goToMatchingPair_there_and_back :
  forall (env : zen_env) (st : state) (open_tag close_tag : tag),
    let content := getContent (editor st) in
    (forall ix cache,
        t_start open_tag <= ix <= t_end close_tag ->
        exists a b,
          a <> -1
          /\ HTMLPairMatcher env content ix cache
             = (Some (a, b),
                mkCache (Some open_tag) (Some close_tag))) ->
    charAt content (t_start open_tag) = Some "<"%char ->
    charAt content (t_start close_tag) = Some "<"%char ->
    t_start open_tag < t_end open_tag ->
    t_end open_tag <= t_start close_tag ->
    t_start close_tag < t_end close_tag ->
    getCaretPos (editor st) = t_start open_tag ->
    exists st1 st2,
      goToMatchingPair env st = Some st1
      /\ editor st1 = setCaretPos (t_start close_tag) (editor st)
      /\ goToMatchingPair env st1 = Some st2
      /\ editor st2 = setCaretPos (t_start open_tag) (editor st1).
Proof.
  intros env st open_tag close_tag content Hm Ho Hc Hlo Hoc Hlc Hcaret.
  destruct (Hm (t_start open_tag + 1) (last_match st) ltac:(lia))
    as [a1 [b1 [Ha1 Hm1]]].
  destruct (Hm (t_start close_tag + 1)
               (mkCache (Some open_tag) (Some close_tag)) ltac:(lia))
    as [a2 [b2 [Ha2 Hm2]]].
  exists (mkState (setCaretPos (t_start close_tag) (editor st))
                  (mkCache (Some open_tag) (Some close_tag))).
  exists (mkState (setCaretPos (t_start open_tag)
                     (setCaretPos (t_start close_tag) (editor st)))
                  (mkCache (Some open_tag) (Some close_tag))).
  assert (H1 : goToMatchingPair env st
               = Some (mkState (setCaretPos (t_start close_tag)
                                            (editor st))
                               (mkCache (Some open_tag)
                                        (Some close_tag)))).
  { unfold goToMatchingPair. fold content. rewrite Hcaret, Ho.
    cbn [chr_eqb]. rewrite Ascii.eqb_refl. rewrite Hm1.
    apply Z.eqb_neq in Ha1. rewrite Ha1. cbn [negb closing_tag opening_tag].
    replace (t_start open_tag <=? t_start open_tag + 1) with true
      by (symmetry; apply Z.leb_le; lia).
    replace (t_end open_tag >=? t_start open_tag + 1) with true
      by (symmetry; apply Z.geb_le; lia).
    reflexivity. }
  split; [ exact H1 | split; [ reflexivity | split; [ | reflexivity ] ] ].
  unfold goToMatchingPair.
  cbn [editor last_match getContent getCaretPos setCaretPos ed_content
       ed_caret].
  change (ed_content (editor st)) with content. rewrite Hc.
  cbn [chr_eqb]. rewrite Ascii.eqb_refl. rewrite Hm2.
  apply Z.eqb_neq in Ha2. rewrite Ha2. cbn [negb closing_tag opening_tag].
  replace (t_end open_tag >=? t_start close_tag + 1) with false
    by (symmetry; rewrite Z.geb_leb; apply Z.leb_gt; lia).
  rewrite andb_false_r.
  replace (t_start close_tag <=? t_start close_tag + 1) with true
    by (symmetry; apply Z.leb_le; lia).
  replace (t_end close_tag >=? t_start close_tag + 1) with true
    by (symmetry; apply Z.geb_le; lia).
  reflexivity.
Qed.

Lemma goToMatchingPair_there_and_back_p :
  let st := mkState (editor_on "html" "<p> x </p>" 0 0 0)
                    (mkCache None None) in
  exists st1 st2,
    goToMatchingPair p_env st = Some st1
    /\ editor st1 = setCaretPos 6 (editor st)
    /\ goToMatchingPair p_env st1 = Some st2
    /\ editor st2 = setCaretPos 0 (editor st1).
Proof.
  apply (@goToMatchingPair_there_and_back p_env
           (mkState (editor_on "html" "<p> x </p>" 0 0 0)
                    (mkCache None None))
           (mkTag 0 3) (mkTag 6 10)).
  - intros ix cache Hix. cbn [t_start t_end] in Hix.
    cbn [p_env HTMLPairMatcher].
    change (str_eqb (getContent (editor (mkState
              (editor_on "html" "<p> x </p>" 0 0 0)
              (mkCache None None)))) p_document) with true.
    replace (0 <=? ix) with true by (symmetry; apply Z.leb_le; lia).
    replace (ix <=? 10) with true by (symmetry; apply Z.leb_le; lia).
    cbn [andb].
    destruct ((3 <=? ix) && (ix <=? 6)); eexists; eexists;
      (split; [ | reflexivity ]); discriminate.
  - reflexivity.
  - reflexivity.
  - simpl. lia.
  - simpl. lia.
  - simpl. lia.
  - reflexivity.
Defined.

(** ** Wrapping with an abbreviation *)

Lemma isSpace_char (c : ascii) : isSpace (Some c) = is_space c.
Proof.
  unfold isSpace, regex_test, exec, re_space.
  cbn [exec_from]. unfold match_here. cbn [rmatch].
  rewrite match_spaces_S.
  destruct (is_space c) eqn:Hc; [ reflexivity | ].
  rewrite (is_space_neq c LF Hc eq_refl).
  rewrite (is_space_neq c CR Hc eq_refl).
  reflexivity.
Qed.

Lemma isSpace_none : isSpace None = false.
Proof. reflexivity. Qed.

(** The first loop of the narrowing stops on the first character of
    the range that is not whitespace. *)
Lemma narrow_start_run (ws : str) :
  forall pre rest post fuel,
    forallb is_space ws = true ->
    rest <> [] -> starts_with_space rest = false ->
    (length ws < fuel)%nat ->
    narrow_start (pre ++ ws ++ rest ++ post) fuel (js_length pre)
                 (js_length pre + js_length ws + js_length rest)
    = js_length pre + js_length ws.
Proof.
  induction ws as [ | c ws' IH]; intros pre rest post fuel Hws Hne Hrest Hf.
  - destruct fuel as [ | k]; [ simpl in Hf; lia | ].
    destruct rest as [ | d rest']; [ contradiction | ].
    cbn [narrow_start app].
    replace (js_length pre <? js_length pre + js_length [] +
             js_length (d :: rest')) with true
      by (symmetry; apply Z.ltb_lt; unfold js_length; simpl; lia).
    rewrite charAt_app_length, isSpace_char.
    simpl in Hrest. rewrite Hrest. unfold js_length. simpl. lia.
  - destruct fuel as [ | k]; [ simpl in Hf; lia | ].
    simpl in Hws. apply andb_prop in Hws. destruct Hws as [Hc Hws].
    cbn [narrow_start].
    replace (js_length pre <? js_length pre + js_length (c :: ws') +
             js_length rest) with true
      by (symmetry; apply Z.ltb_lt; unfold js_length; simpl; lia).
    change ((c :: ws') ++ rest ++ post) with (c :: (ws' ++ rest ++ post)).
    rewrite charAt_app_length, isSpace_char, Hc. cbn [negb].
    specialize (IH (pre ++ [c]) rest post k Hws Hne Hrest).
    rewrite <- app_assoc in IH. cbn [app] in IH.
    replace (js_length pre + 1) with (js_length (pre ++ [c]))
      by (unfold js_length; rewrite length_app; simpl; lia).
    replace (js_length pre + js_length (c :: ws') + js_length rest)
      with (js_length (pre ++ [c]) + js_length ws' + js_length rest)
      by (unfold js_length; rewrite length_app; simpl; lia).
    rewrite IH by (simpl in Hf; lia).
    unfold js_length; rewrite length_app; simpl; lia.
Qed.

Lemma ends_with_space_snoc (body : str) (d : ascii) :
  ends_with_space (body ++ [d]) = is_space d.
Proof.
  unfold ends_with_space. now rewrite rev_unit.
Qed.

(** The second loop stops after the last character of the range that
    is not whitespace. *)
Lemma narrow_end_run (ws : str) :
  forall pre body post fuel,
    forallb is_space ws = true ->
    body <> [] -> ends_with_space body = false ->
    (length ws < fuel)%nat ->
    narrow_end (pre ++ body ++ ws ++ post) fuel (js_length pre)
               (js_length pre + js_length body + js_length ws)
    = js_length pre + js_length body.
Proof.
  induction ws as [ | c ws' IH] using rev_ind;
    intros pre body post fuel Hws Hne Hbody Hf.
  - destruct fuel as [ | k]; [ simpl in Hf; lia | ].
    destruct (exists_last Hne) as [body' [d Hb]]. subst body.
    rewrite ends_with_space_snoc in Hbody.
    cbn [narrow_end app].
    replace (js_length pre + js_length (body' ++ [d]) + js_length []
             >? js_length pre) with true
      by (symmetry; apply Z.gtb_lt; unfold js_length;
          rewrite length_app; simpl; lia).
    replace (js_length pre + js_length (body' ++ [d]) + js_length [] - 1)
      with (js_length (pre ++ body'))
      by (unfold js_length; rewrite !length_app; simpl; lia).
    replace (pre ++ (body' ++ [d]) ++ post)
      with ((pre ++ body') ++ d :: post)
      by (rewrite <- !app_assoc; reflexivity).
    rewrite charAt_app_length, isSpace_char, Hbody. cbn [negb].
    unfold js_length; rewrite !length_app; simpl; lia.
  - destruct fuel as [ | k];
      [ rewrite length_app in Hf; simpl in Hf; lia | ].
    rewrite forallb_app in Hws. apply andb_prop in Hws.
    destruct Hws as [Hws Hc]. simpl in Hc. rewrite andb_true_r in Hc.
    cbn [narrow_end].
    replace (js_length pre + js_length body + js_length (ws' ++ [c])
             >? js_length pre) with true
      by (symmetry; apply Z.gtb_lt; unfold js_length;
          rewrite length_app; simpl; lia).
    replace (js_length pre + js_length body + js_length (ws' ++ [c]) - 1)
      with (js_length (pre ++ body ++ ws'))
      by (unfold js_length; rewrite !length_app; simpl; lia).
    replace (pre ++ body ++ (ws' ++ [c]) ++ post)
      with ((pre ++ body ++ ws') ++ c :: post)
      by (rewrite <- !app_assoc; reflexivity).
    rewrite charAt_app_length, isSpace_char, Hc. cbn [negb].
    replace ((pre ++ body ++ ws') ++ c :: post)
      with (pre ++ body ++ ws' ++ (c :: post))
      by (rewrite <- !app_assoc; reflexivity).
    replace (js_length (pre ++ body ++ ws'))
      with (js_length pre + js_length body + js_length ws')
      by (unfold js_length; rewrite !length_app; lia).
    apply IH; try assumption.
    rewrite length_app in Hf. simpl in Hf. lia.
Qed.

Lemma narrow_range_trims_aux :
  forall (pre ws1 body ws2 post : str),
    forallb is_space ws1 = true ->
    forallb is_space ws2 = true ->
    body <> [] ->
    starts_with_space body = false ->
    ends_with_space body = false ->
    let content := pre ++ ws1 ++ body ++ ws2 ++ post in
    let a := js_length pre in
    let b := js_length pre + js_length (ws1 ++ body ++ ws2) in
    narrow_range content a b
    = (a + js_length ws1, a + js_length ws1 + js_length body)
    /\ substring content (a + js_length ws1)
                 (a + js_length ws1 + js_length body) = body.
Proof.
  intros pre ws1 body ws2 post H1 H2 Hne Hs He content a b.
  assert (Hstart : narrow_start content (Z.to_nat (b - a)) a b
                   = a + js_length ws1).
  { unfold content, a, b.
    replace (js_length pre + js_length (ws1 ++ body ++ ws2))
      with (js_length pre + js_length ws1 + js_length (body ++ ws2))
      by (unfold js_length; rewrite !length_app; lia).
    replace (pre ++ ws1 ++ body ++ ws2 ++ post)
      with (pre ++ ws1 ++ (body ++ ws2) ++ post)
      by (rewrite <- !app_assoc; reflexivity).
    apply narrow_start_run; try assumption.
    - destruct body; [ contradiction | discriminate ].
    - destruct body; [ contradiction | exact Hs ].
    - destruct body; [ contradiction | ].
      unfold js_length. rewrite !length_app. simpl. lia. }
  assert (Hend : narrow_end content
                   (Z.to_nat (b - (a + js_length ws1)))
                   (a + js_length ws1) b
                 = a + js_length ws1 + js_length body).
  { unfold content, a, b.
    replace (js_length pre + js_length ws1)
      with (js_length (pre ++ ws1))
      by (unfold js_length; rewrite length_app; lia).
    replace (js_length pre + js_length (ws1 ++ body ++ ws2))
      with (js_length (pre ++ ws1) + js_length body + js_length ws2)
      by (unfold js_length; rewrite !length_app; lia).
    replace (pre ++ ws1 ++ body ++ ws2 ++ post)
      with ((pre ++ ws1) ++ body ++ ws2 ++ post)
      by (rewrite <- !app_assoc; reflexivity).
    apply narrow_end_run; try assumption.
    destruct body; [ contradiction | ].
    unfold js_length. rewrite !length_app. simpl. lia. }
  split.
  - unfold narrow_range. rewrite Hstart, Hend. reflexivity.
  - unfold content, a.
    replace (js_length pre + js_length ws1)
      with (js_length (pre ++ ws1))
      by (unfold js_length; rewrite length_app; lia).
    replace (pre ++ ws1 ++ body ++ ws2 ++ post)
      with ((pre ++ ws1) ++ body ++ (ws2 ++ post))
      by (rewrite <- !app_assoc; reflexivity).
    apply substring_mid.
Qed.

(** X11. The narrowing of [wrapWithAbbreviation] trims the range: on a
    range that holds whitespace, then a text that neither begins nor
    ends with whitespace and is not empty, then whitespace, the two
    loops return the range of that text. *)
Theorem narrow_range_trims :
  forall (pre ws1 body ws2 post : str),
    forallb is_space ws1 = true ->
    forallb is_space ws2 = true ->
    body <> [] ->
    starts_with_space body = false ->
    ends_with_space body = false ->
    let content := pre ++ ws1 ++ body ++ ws2 ++ post in
    let a := js_length pre in
    let b := js_length pre + js_length (ws1 ++ body ++ ws2) in
    narrow_range content a b
    = (a + js_length ws1, a + js_length ws1 + js_length body)
    /\ substring content (a + js_length ws1)
                 (a + js_length ws1 + js_length body) = body.
Proof.
  intros pre ws1 body ws2 post H1 H2 Hne Hs He.
  now apply narrow_range_trims_aux.
Qed.

Lemma narrow_range_trims_p :
  narrow_range (lit "<p> x </p>") 3 6 = (4, 5)
  /\ substring (lit "<p> x </p>") 4 5 = lit "x".
Proof.
  apply (@narrow_range_trims (lit "<p>") (lit " ") (lit "x") (lit " ")
                             (lit "</p>"));
    [ reflexivity | reflexivity | discriminate | reflexivity
    | reflexivity ].
Defined.

Lemma truthy_cons (x : option str) :
  truthy x = true -> exists c t, x = Some (c :: t) /\ str_or x [] = c :: t.
Proof.
  destruct x as [[ | c t] | ]; simpl; try discriminate.
  intros _. exists c, t. now split.
Qed.

(** X12. [wrapWithAbbreviation] without a selection wraps the content
    of the pair found at the caret and leaves the whitespace around it
    outside: the pair's range holds whitespace, a text [body] without
    whitespace at its ends, and whitespace; the core is given the
    unindented [body], and what it returns takes the place of [body]
    only. The caret is set to the end of [body] first. *)
Theorem wrapWithAbbreviation_wraps_trimmed_pair :
  forall (env : zen_env) (host : zen_host) (st : state)
         (abbr syntax profile_name : option str)
         (pre ws1 body ws2 post result : str) (p : Z)
         (cache : match_cache),
    let e := editor st in
    getContent e = pre ++ ws1 ++ body ++ ws2 ++ post ->
    getSelectionRange e = mkRange p p ->
    HTMLPairMatcher env (getContent e) p (last_match st)
    = (Some (js_length pre,
             js_length pre + js_length (ws1 ++ body ++ ws2)), cache) ->
    forallb is_space ws1 = true ->
    forallb is_space ws2 = true ->
    body <> [] ->
    starts_with_space body = false ->
    ends_with_space body = false ->
    truthy abbr = true ->
    zc_wrapWithAbbreviation host (str_or abbr []) (unindent env e body)
      (str_or syntax (getSyntax e))
      (str_or profile_name (getProfileName host e))
    = Some result ->
    result <> [] ->
    let a := js_length pre + js_length ws1 in
    let b := js_length pre + js_length ws1 + js_length body in
    wrapWithAbbreviation env host abbr syntax profile_name st
    = mkState (replaceContent result a b (setCaretPos b e)) cache
    /\ getContent (replaceContent result a b (setCaretPos b e))
       = pre ++ ws1 ++ result ++ ws2 ++ post.
Proof.
  intros env host st abbr syntax profile_name pre ws1 body ws2 post
         result p cache e Hcontent Hsel Hm H1 H2 Hne Hs He Habbr Hwrap
         Hres a b.
  destruct (@narrow_range_trims_aux pre ws1 body ws2 post H1 H2 Hne Hs He)
    as [Hn Hsub].
  split.
  - unfold wrapWithAbbreviation. fold e.
    rewrite Habbr, Hsel. cbn [negb r_start r_end].
    rewrite Z.eqb_refl, Hm.
    destruct (Z.eqb_spec (js_length pre) (-1)) as [E | _];
      [ unfold js_length in E; lia | ].
    rewrite Hcontent, Hn.
    unfold wrap_range. rewrite Hcontent, Hsub, Hwrap.
    destruct result as [ | r0 rs]; [ contradiction | reflexivity ].
  - unfold getContent. unfold a, b.
    replace (js_length pre + js_length ws1)
      with (js_length (pre ++ ws1))
      by (unfold js_length; rewrite length_app; lia).
    replace (pre ++ ws1 ++ result ++ ws2 ++ post)
      with ((pre ++ ws1) ++ result ++ (ws2 ++ post))
      by (rewrite <- !app_assoc; reflexivity).
    apply (@replaceContent_mid (pre ++ ws1) body (ws2 ++ post)).
    cbn [setCaretPos ed_content]. fold (getContent e). rewrite Hcontent.
    now rewrite <- !app_assoc.
Qed.

Lemma wrapWithAbbreviation_wraps_trimmed_pair_p :
  getContent (editor (wrapWithAbbreviation p_env demo_host
                        (Some (lit "b")) None None
                        (mkState (editor_on "html" "<p> x </p>" 4 4 4)
                                 (mkCache None None))))
  = lit "<p> <b>x</b> </p>".
Proof.
  destruct (@wrapWithAbbreviation_wraps_trimmed_pair p_env demo_host
              (mkState (editor_on "html" "<p> x </p>" 4 4 4)
                       (mkCache None None))
              (Some (lit "b")) None None
              (lit "<p>") (lit " ") (lit "x") (lit " ") (lit "</p>")
              (lit "<b>x</b>") 4
              (mkCache (Some (mkTag 0 3)) (Some (mkTag 6 10))))
    as [Hw Hc];
    [ reflexivity | reflexivity | reflexivity | reflexivity | reflexivity
    | discriminate | reflexivity | reflexivity | reflexivity
    | reflexivity | discriminate | ].
  rewrite Hw. exact Hc.
Defined.

(** X13. [wrapWithAbbreviation] replaces one range by what the core
    returned for it, or changes nothing. Without an abbreviation
    ([undefined] or the empty string) it leaves the state as it was
    and does not ask the tag matcher. With one, the range is the
    selection when it is not empty, and otherwise the range the tag
    matcher reports at the selection start, narrowed to its first and
    last character that is not whitespace; when the matcher reports no
    range, or one that starts at -1, the editor stays as it was. The
    core is asked to wrap the unindented text of the range with the
    abbreviation: when it returns a text that is not empty, the caret
    is set to the end of the range and the range is replaced by that
    text; when it returns nothing or the empty text, the editor stays
    as it was. *)
Theorem wrapWithAbbreviation_only_replaces :
  forall (env : zen_env) (host : zen_host) (st : state)
         (abbr syntax profile_name : option str),
    let e := editor st in
    let content := getContent e in
    let rng := getSelectionRange e in
    let found := HTMLPairMatcher env content (r_start rng) (last_match st) in
    let core a b :=
      zc_wrapWithAbbreviation host (str_or abbr [])
        (unindent env e (substring content a b))
        (str_or syntax (getSyntax e))
        (str_or profile_name (getProfileName host e)) in
    let wrapped a b e' :=
      (exists result,
          core a b = Some result /\ result <> []
          /\ e' = replaceContent result a b (setCaretPos b e))
      \/ ((core a b = None \/ core a b = Some []) /\ e' = e) in
    let st' := wrapWithAbbreviation env host abbr syntax profile_name st in
    (truthy abbr = false -> st' = st)
    /\ (truthy abbr = true ->
        (r_start rng <> r_end rng ->
         last_match st' = last_match st
         /\ wrapped (r_start rng) (r_end rng) (editor st'))
        /\ (r_start rng = r_end rng ->
            last_match st' = snd found
            /\ (fst found = None -> editor st' = e)
            /\ (forall a b, fst found = Some (a, b) -> a = -1 ->
                            editor st' = e)
            /\ (forall a b, fst found = Some (a, b) -> a <> -1 ->
                            wrapped (fst (narrow_range content a b))
                                    (snd (narrow_range content a b))
                                    (editor st')))).
Proof.
  intros env host st abbr syntax profile_name e content rng found core
         wrapped st'.
  assert (Hw : forall a b,
             wrapped a b
               (wrap_range env host (str_or abbr [])
                  (str_or syntax (getSyntax e))
                  (str_or profile_name (getProfileName host e)) e a b)).
  { intros a b. unfold wrapped, wrap_range. cbv zeta.
    fold content. fold (core a b).
    destruct (core a b) as [[ | c t] | ]; cbn [truthy str_or].
    - right. split; [ now right | reflexivity ].
    - left. exists (c :: t).
      split; [ reflexivity | split; [ discriminate | reflexivity ] ].
    - right. split; [ now left | reflexivity ]. }
  subst st'. unfold wrapWithAbbreviation. cbv zeta.
  fold e. fold rng. fold content. fold found.
  destruct (truthy abbr) eqn:Ha; cbn [negb].
  - split; [ discriminate | intros _ ]. split.
    + intros Hne. apply Z.eqb_neq in Hne. rewrite Hne.
      cbn [editor last_match]. split; [ reflexivity | apply Hw ].
    + intros Heq. apply Z.eqb_eq in Heq. rewrite Heq.
      destruct found as [[[a b] | ] cache]; cbn [fst snd].
      * destruct (Z.eqb_spec a (-1)) as [Ea | Ea].
        -- cbn [editor last_match].
           split; [ reflexivity | ]. split; [ discriminate | ].
           split; [ reflexivity | ].
           intros a' b' Hr Ha'. injection Hr as <- <-. contradiction.
        -- destruct (narrow_range content a b) as [a1 b1] eqn:Hn.
           cbn [editor last_match].
           split; [ reflexivity | ]. split; [ discriminate | ].
           split; [ intros a' b' Hr Ha'; injection Hr as <- <-;
                    contradiction | ].
           intros a' b' Hr _. injection Hr as <- <-.
           rewrite Hn. cbn [fst snd]. apply Hw.
      * cbn [editor last_match].
        split; [ reflexivity | ]. split; [ reflexivity | ].
        split; intros a b Hr; discriminate.
  - split; [ reflexivity | discriminate ].
Qed.

(** ** Expanding abbreviations *)

Lemma expandAbbreviation_true_iff_replaced_aux
      (host : zen_host) (e : zen_editor)
      (syntax profile_name : option str) :
  (fst (expandAbbreviation host e syntax profile_name) = false
   /\ snd (expandAbbreviation host e syntax profile_name) = e)
  \/ fst (expandAbbreviation host e syntax profile_name) = true.
Proof.
  unfold expandAbbreviation.
  destruct (truthy (findAbbreviation host e)); [ | now left ].
  destruct (truthy (zc_expandAbbreviation host
              (str_or (findAbbreviation host e) [])
              (str_or syntax (getSyntax e))
              (str_or profile_name (getProfileName host e))));
    [ now right | now left ].
Qed.

(** X14. [expandAbbreviation] returns [true] exactly when it has
    replaced text: then an abbreviation that is not empty was found,
    its expansion is not empty, and the expansion has replaced the
    range that ends at the end of the selection and is as long as the
    abbreviation. When it returns [false] the editor is as it was. *)
Theorem expandAbbreviation_true_iff_replaced :
  forall (host : zen_host) (e : zen_editor)
         (syntax profile_name : option str),
    let r := expandAbbreviation host e syntax profile_name in
    (fst r = false /\ snd r = e)
    \/ (fst r = true
        /\ exists abbr out,
             abbr <> [] /\ out <> []
             /\ findAbbreviation host e = Some abbr
             /\ zc_expandAbbreviation host abbr
                  (str_or syntax (getSyntax e))
                  (str_or profile_name (getProfileName host e))
                = Some out
             /\ snd r
                = replaceContent out
                    (r_end (getSelectionRange e) - js_length abbr)
                    (r_end (getSelectionRange e)) e).
Proof.
  intros host e syntax profile_name r. subst r.
  unfold expandAbbreviation.
  destruct (truthy (findAbbreviation host e)) eqn:Ha; [ | now left ].
  apply truthy_cons in Ha. destruct Ha as [c [t [Hf Ha]]].
  rewrite Ha.
  destruct (truthy (zc_expandAbbreviation host (c :: t)
              (str_or syntax (getSyntax e))
              (str_or profile_name (getProfileName host e)))) eqn:Ho;
    [ | now left ].
  apply truthy_cons in Ho. destruct Ho as [d [u [Hz Ho]]].
  rewrite Ho. right. split; [ reflexivity | ].
  exists (c :: t), (d :: u).
  repeat split; try discriminate; assumption.
Qed.

(** X15. With a selection that is not empty, [expandAbbreviation]
    takes the selected text for the abbreviation and puts its
    expansion in the place of the selection. *)
Theorem expandAbbreviation_replaces_selection :
  forall (host : zen_host) (e : zen_editor)
         (syntax profile_name : option str) (pre abbr post out : str),
    getContent e = pre ++ abbr ++ post ->
    getSelectionRange e
    = mkRange (js_length pre) (js_length pre + js_length abbr) ->
    abbr <> [] ->
    zc_expandAbbreviation host abbr (str_or syntax (getSyntax e))
      (str_or profile_name (getProfileName host e)) = Some out ->
    out <> [] ->
    fst (expandAbbreviation host e syntax profile_name) = true
    /\ getContent (snd (expandAbbreviation host e syntax profile_name))
       = pre ++ out ++ post.
Proof.
  intros host e syntax profile_name pre abbr post out Hc Hsel Hne Hx Ho.
  unfold expandAbbreviation, findAbbreviation.
  rewrite Hsel. cbn [r_start r_end].
  replace (js_length pre =? js_length pre + js_length abbr) with false
    by (symmetry; apply Z.eqb_neq; destruct abbr;
        [ contradiction | unfold js_length; simpl; lia ]).
  cbn [negb]. rewrite Hc, substring_mid.
  destruct abbr as [ | c t]; [ contradiction | ].
  cbn [truthy str_or]. rewrite Hx.
  destruct out as [ | d u]; [ contradiction | ].
  cbn [truthy str_or fst snd]. split; [ reflexivity | ].
  replace (js_length pre + js_length (c :: t) - js_length (c :: t))
    with (js_length pre) by lia.
  now apply replaceContent_mid.
Qed.

Lemma expandAbbreviation_replaces_selection_div :
  getContent (snd (expandAbbreviation demo_host
                     (editor_on "html" "a div b" 2 5 5) None None))
  = lit "a <div></div> b".
Proof.
  apply (@expandAbbreviation_replaces_selection demo_host
           (editor_on "html" "a div b" 2 5 5) None None
           (lit "a ") (lit "div") (lit " b") (lit "<div></div>"));
    try reflexivity; discriminate.
Defined.

(** X16. Without a selection, [expandAbbreviation] asks the core for
    the abbreviation in the text from the start of the current line to
    the caret; when the core answers with the text [abbr] that stands
    right before the caret, the expansion takes the place of [abbr]. *)
Theorem expandAbbreviation_replaces_before_caret :
  forall (host : zen_host) (e : zen_editor)
         (syntax profile_name : option str) (pre abbr post out : str),
    getContent e = pre ++ abbr ++ post ->
    getSelectionRange e
    = mkRange (js_length pre + js_length abbr)
              (js_length pre + js_length abbr) ->
    zc_extractAbbreviation host
      (substring (getContent e) (r_start (getCurrentLineRange e))
                 (js_length pre + js_length abbr)) = Some abbr ->
    abbr <> [] ->
    zc_expandAbbreviation host abbr (str_or syntax (getSyntax e))
      (str_or profile_name (getProfileName host e)) = Some out ->
    out <> [] ->
    fst (expandAbbreviation host e syntax profile_name) = true
    /\ getContent (snd (expandAbbreviation host e syntax profile_name))
       = pre ++ out ++ post.
Proof.
  intros host e syntax profile_name pre abbr post out Hc Hsel Hext Hne
         Hx Ho.
  unfold expandAbbreviation, findAbbreviation.
  rewrite Hsel. cbn [r_start r_end]. rewrite Z.eqb_refl. cbn [negb].
  rewrite Hext.
  destruct abbr as [ | c t]; [ contradiction | ].
  cbn [truthy str_or]. rewrite Hx.
  destruct out as [ | d u]; [ contradiction | ].
  cbn [truthy str_or fst snd]. split; [ reflexivity | ].
  replace (js_length pre + js_length (c :: t) - js_length (c :: t))
    with (js_length pre) by lia.
  now apply replaceContent_mid.
Qed.

Lemma expandAbbreviation_replaces_before_caret_div :
  getContent (snd (expandAbbreviation demo_host
                     (editor_on "html" "a div" 5 5 5) None None))
  = lit "a <div></div>".
Proof.
  apply (@expandAbbreviation_replaces_before_caret demo_host
           (editor_on "html" "a div" 5 5 5) None None
           (lit "a ") (lit "div") [] (lit "<div></div>"));
    try reflexivity; discriminate.
Defined.

Lemma str_or_idem (x : option str) (d : str) :
  str_or (Some (str_or x d)) d = str_or x d.
Proof.
  destruct x as [[ | c t] | ]; simpl; try reflexivity; now destruct d.
Qed.

Lemma replaceContent_insert (pre post value : str) (e : zen_editor) :
  ed_content e = pre ++ post ->
  ed_content (replaceContent value (js_length pre) (js_length pre) e)
  = pre ++ value ++ post.
Proof.
  intros H.
  pose proof (@replaceContent_mid pre [] post e value H) as Hm.
  change (js_length []) with 0 in Hm. now rewrite Z.add_0_r in Hm.
Qed.

(** X17. [expandAbbreviationWithTab] does what [expandAbbreviation]
    does when that expands; otherwise it inserts the indentation of
    the core at the caret and changes nothing else. *)
Theorem expandAbbreviationWithTab_expands_or_indents :
  forall (host : zen_host) (e : zen_editor)
         (syntax profile_name : option str),
    let r := expandAbbreviation host e syntax profile_name in
    let e' := expandAbbreviationWithTab host e syntax profile_name in
    (fst r = true -> e' = snd r)
    /\ (fst r = false ->
        e' = replaceContent (zc_getVariable host (lit "indentation"))
                            (getCaretPos e) (getCaretPos e) e
        /\ forall pre post,
             getContent e = pre ++ post ->
             getCaretPos e = js_length pre ->
             getContent e'
             = pre ++ zc_getVariable host (lit "indentation") ++ post).
Proof.
  intros host e syntax profile_name r e'. subst r e'.
  unfold expandAbbreviationWithTab.
  assert (Hsame : expandAbbreviation host e
                    (Some (str_or syntax (getSyntax e)))
                    (Some (str_or profile_name (getProfileName host e)))
                  = expandAbbreviation host e syntax profile_name).
  { unfold expandAbbreviation. now rewrite !str_or_idem. }
  rewrite Hsame.
  destruct (expandAbbreviation_true_iff_replaced_aux host e syntax
              profile_name) as [[Hf He] | Ht].
  - destruct (expandAbbreviation host e syntax profile_name)
      as [b e1]. simpl in Hf, He. subst b e1. cbn [negb fst snd].
    split; [ discriminate | intros _ ].
    split; [ reflexivity | ].
    intros pre post Hc Hp. rewrite Hp. unfold getContent.
    now apply replaceContent_insert.
  - destruct (expandAbbreviation host e syntax profile_name)
      as [b e1]. simpl in Ht. subst b. cbn [negb fst snd].
    split; [ reflexivity | discriminate ].
Qed.

(** ** Breaking the line *)

(** X18. [insertFormattedNewline] inserts at the caret and removes
    nothing. What it inserts is a line feed; or, in html mode with the
    caret right between the end of an opening tag of type [tag] and
    the start of its closing tag, a line feed, a tab, the caret
    placeholder and a line feed. It raises an error only when the tag
    matcher hands back no pair object in html mode. *)
Theorem insertFormattedNewline_inserts_at_caret :
  forall (host : zen_host) (mode : option str) (e : zen_editor)
         (pre post : str),
    getContent e = pre ++ post ->
    getCaretPos e = js_length pre ->
    (str_or mode (lit "html") = lit "html" ->
     getTags_info host (getContent e) (getCaretPos e) <> None) ->
    exists ins e',
      insertFormattedNewline host mode e = Some e'
      /\ e' = replaceContent ins (js_length pre) (js_length pre) e
      /\ getContent e' = pre ++ ins ++ post
      /\ (ins = [LF]
          \/ (ins = [LF; TAB; "|"%char; LF]
              /\ str_or mode (lit "html") = lit "html"
              /\ exists t0 t1,
                   getTags_info host (getContent e) (getCaretPos e)
                   = Some (Some t0, Some t1)
                   /\ ti_type t0 = lit "tag"
                   /\ ti_end t0 = getCaretPos e
                   /\ ti_start t1 = getCaretPos e)).
Proof.
  intros host mode e pre post Hc Hp Htags.
  unfold insertFormattedNewline. rewrite Hp.
  assert (Hnl : exists ins e',
             Some (replaceContent [LF] (js_length pre) (js_length pre) e)
             = Some e'
             /\ e' = replaceContent ins (js_length pre) (js_length pre) e
             /\ getContent e' = pre ++ ins ++ post
             /\ (ins = [LF]
                 \/ (ins = [LF; TAB; "|"%char; LF]
                     /\ str_or mode (lit "html") = lit "html"
                     /\ exists t0 t1,
                          getTags_info host (getContent e) (js_length pre)
                          = Some (Some t0, Some t1)
                          /\ ti_type t0 = lit "tag"
                          /\ ti_end t0 = js_length pre
                          /\ ti_start t1 = js_length pre))).
  { exists [LF]. eexists. split; [ reflexivity | ].
    split; [ reflexivity | ]. split; [ | now left ].
    unfold getContent. now apply replaceContent_insert. }
  destruct (str_eqb (str_or mode (lit "html")) (lit "html")) eqn:Hmode;
    [ | exact Hnl ].
  apply str_eqb_eq in Hmode. specialize (Htags Hmode).
  rewrite Hp in Htags.
  destruct (getTags_info host (getContent e) (js_length pre))
    as [[[t0 | ] [t1 | ]] | ] eqn:Hg;
    [ | exact Hnl | exact Hnl | exact Hnl | contradiction ].
  destruct (str_eqb (ti_type t0) (lit "tag")
            && (ti_end t0 =? js_length pre)
            && (ti_start t1 =? js_length pre)) eqn:Hb;
    [ | exact Hnl ].
  apply andb_prop in Hb. destruct Hb as [Hb H3].
  apply andb_prop in Hb. destruct Hb as [H1 H2].
  apply str_eqb_eq in H1. apply Z.eqb_eq in H2, H3.
  exists [LF; TAB; "|"%char; LF]. eexists.
  split; [ reflexivity | ]. split; [ reflexivity | ].
  split; [ unfold getContent; now apply replaceContent_insert | ].
  right. split; [ reflexivity | ]. split; [ exact Hmode | ].
  exists t0, t1. auto.
Qed.

Lemma insertFormattedNewline_inserts_at_caret_p :
  exists ins e',
    insertFormattedNewline demo_host None
                           (editor_on "html" "<p></p>" 3 3 3) = Some e'
    /\ getContent e' = lit "<p>" ++ ins ++ lit "</p>".
Proof.
  destruct (@insertFormattedNewline_inserts_at_caret demo_host None
              (editor_on "html" "<p></p>" 3 3 3) (lit "<p>") (lit "</p>"))
    as [ins [e' [H1 [_ [H2 _]]]]];
    [ reflexivity | reflexivity | intros _; discriminate | ].
  exists ins, e'. split; assumption.
Defined.

(** ** What merging lines gives *)

Lemma single_line_strip (s : str) :
  single_line s = true -> single_line (strip_leading_space s) = true.
Proof.
  induction s as [ | c t IH]; intros H; [ reflexivity | ].
  simpl. destruct (is_space c); [ | exact H ].
  simpl in H. apply andb_prop in H. now apply IH.
Qed.

Lemma single_line_collapse (s : str) :
  single_line s = true -> single_line (collapse_first_run s) = true.
Proof.
  induction s as [ | c t IH]; intros H; [ reflexivity | ].
  simpl in H. apply andb_prop in H. destruct H as [Hc Ht].
  simpl. destruct (is_space c && starts_with_space t).
  - simpl. now apply single_line_strip.
  - simpl. rewrite Hc. now apply IH.
Qed.

Lemma single_line_concat (ls : list str) :
  Forall (fun l => single_line l = true) ls ->
  single_line (concat ls) = true.
Proof.
  induction 1 as [ | l ls Hl _ IH]; [ reflexivity | ].
  simpl. unfold single_line in *. now rewrite forallb_app, Hl, IH.
Qed.

Lemma single_line_joined (ls : list str) :
  Forall (fun l => single_line l = true) ls ->
  single_line (joined_lines ls) = true.
Proof.
  intros H. unfold joined_lines. destruct ls as [ | first others];
    [ reflexivity | ].
  apply single_line_concat. inversion H as [ | x xs Hx Hxs]; subst.
  constructor; [ exact Hx | ].
  apply Forall_map. eapply Forall_impl; [ | exact Hxs ].
  intros l. apply single_line_strip.
Qed.

(** X19. [mergeLines] leaves one line. When the lines the core splits
    the range into hold no line terminator, the text put in place of
    the range holds none either; it stands where the range stood, and
    the selection made afterwards spans exactly that text. *)
Theorem mergeLines_leaves_one_line :
  forall (env : zen_env) (st : state) (pre text post : str)
         (cache : match_cache),
    getContent (editor st) = pre ++ text ++ post ->
    merge_selection env st
    = (mkRange (js_length pre) (js_length pre + js_length text), cache) ->
    text <> [] ->
    Forall (fun l => single_line l = true) (splitByLines env text) ->
    exists merged,
      let e' := editor (mergeLines env st) in
      getContent e' = pre ++ merged ++ post
      /\ single_line merged = true
      /\ getSelectionRange e'
         = mkRange (js_length pre) (js_length pre + js_length merged)
      /\ substring (getContent e') (r_start (getSelectionRange e'))
                   (r_end (getSelectionRange e')) = merged.
Proof.
  intros env st pre text post cache Hc Hsel Hne Hlines.
  exists (merge_text env text).
  assert (Hm : mergeLines env st
               = mkState (createSelection (js_length pre)
                            (js_length pre
                             + js_length (merge_text env text))
                            (replaceContent (merge_text env text)
                               (js_length pre)
                               (js_length pre + js_length text)
                               (editor st)))
                         cache).
  { unfold mergeLines. rewrite Hsel. cbn [r_start r_end].
    replace (js_length pre =? js_length pre + js_length text) with false
      by (symmetry; apply Z.eqb_neq; destruct text;
          [ contradiction | unfold js_length; simpl; lia ]).
    cbn [negb]. rewrite Hc, substring_mid. reflexivity. }
  cbv zeta. rewrite Hm. cbn [editor].
  assert (Hcontent : getContent
                       (createSelection (js_length pre)
                          (js_length pre + js_length (merge_text env text))
                          (replaceContent (merge_text env text)
                             (js_length pre)
                             (js_length pre + js_length text)
                             (editor st)))
                     = pre ++ merge_text env text ++ post).
  { unfold getContent. cbn [createSelection ed_content].
    now apply replaceContent_mid. }
  split; [ exact Hcontent | ].
  split; [ rewrite merge_text_collapse;
           now apply single_line_collapse, single_line_joined | ].
  split; [ reflexivity | ].
  rewrite Hcontent. cbn [getSelectionRange createSelection ed_selection
                         r_start r_end].
  apply substring_mid.
Qed.

Lemma mergeLines_leaves_one_line_p :
  exists merged,
    getContent (editor (mergeLines no_tags_env
       (mkState (mkEditor (lit "<p>" ++ [LF] ++ lit "  hello" ++ [LF]
                           ++ lit "</p>")
                          (mkRange 0 16) 0 (lit "html") [])
                (mkCache None None))))
    = merged
    /\ single_line merged = true.
Proof.
  destruct (@mergeLines_leaves_one_line no_tags_env
              (mkState (mkEditor (lit "<p>" ++ [LF] ++ lit "  hello"
                                  ++ [LF] ++ lit "</p>")
                                 (mkRange 0 16) 0 (lit "html") [])
                       (mkCache None None))
              [] (lit "<p>" ++ [LF] ++ lit "  hello" ++ [LF] ++ lit "</p>")
              [] (mkCache None None))
    as [merged [H1 [H2 _]]];
    [ reflexivity | reflexivity | discriminate
    | repeat constructor | ].
  exists merged. split; [ | exact H2 ].
  rewrite H1. simpl. now rewrite app_nil_r.
Defined.

(** ** Unwrapping a comment *)

Lemma strip_leading_space_app (ws s : str) :
  forallb is_space ws = true ->
  strip_leading_space (ws ++ s) = strip_leading_space s.
Proof.
  induction ws as [ | c w IH]; intros H; [ reflexivity | ].
  simpl in H. apply andb_prop in H. destruct H as [Hc Hw].
  simpl. rewrite Hc. now apply IH.
Qed.

Lemma strip_leading_space_id (s : str) :
  starts_with_space s = false -> strip_leading_space s = s.
Proof.
  destruct s as [ | c t]; [ reflexivity | ].
  simpl. now intros ->.
Qed.

Lemma match_spaces_0_run (A : Type) (k : bool -> str -> option A)
      (ws s : str) (x : A) :
  forallb is_space ws = true -> starts_with_space s = false ->
  (forall b, k b s = Some x) ->
  forall bol, match_spaces 0 bol (ws ++ s) k = Some x.
Proof.
  intros Hws Hs Hk. induction ws as [ | c w IH]; intros bol.
  - destruct s as [ | d t]; simpl; [ apply Hk | ].
    simpl in Hs. rewrite Hs. apply Hk.
  - simpl in Hws. apply andb_prop in Hws. destruct Hws as [Hc Hw].
    simpl. rewrite Hc. now rewrite IH.
Qed.

Lemma match_close_marker_long (A : Type) (s : str) (bol : bool)
      (k : bool -> str -> option A) :
  (3 < length s)%nat ->
  rmatch (RSeq (RChr "-") (RSeq (RChr "-") (RSeq (RChr ">") REol)))
         bol s k = None.
Proof.
  intros H.
  destruct s as [ | x [ | y [ | z [ | u s']]]]; simpl in H; try lia.
  cbn [rmatch].
  destruct (Ascii.eqb x "-"); [ | reflexivity ].
  destruct (Ascii.eqb y "-"); [ | reflexivity ].
  destruct (Ascii.eqb z ">"); reflexivity.
Qed.

Lemma match_here_comment_close_before (c : ascii) (t ws : str)
      (bol : bool) :
  ends_with_space (c :: t) = false ->
  match_here re_comment_close bol ((c :: t) ++ ws ++ lit "-->") = None.
Proof.
  intros Hend.
  change (match_here re_comment_close bol ((c :: t) ++ ws ++ lit "-->"))
    with (match_spaces 0 bol ((c :: t) ++ ws ++ lit "-->")
            (fun b s' =>
               rmatch (RSeq (RChr "-") (RSeq (RChr "-")
                            (RSeq (RChr ">") REol)))
                      b s' (fun _ rest => Some rest))).
  apply match_spaces_0_none.
  intros w s' b E Hw.
  apply app_eq_app in E. destruct E as [l [[E1 E2] | [E1 E2]]].
  - subst s'. apply match_close_marker_long.
    destruct l as [ | d l'].
    + exfalso. rewrite app_nil_r in E1. subst w.
      apply all_space_ends_with_space in Hw; [ congruence | discriminate ].
    + rewrite !length_app. simpl. lia.
  - exfalso. subst w. rewrite forallb_app in Hw.
    apply andb_prop in Hw. destruct Hw as [Hw _].
    apply all_space_ends_with_space in Hw; [ congruence | discriminate ].
Qed.

Lemma match_here_comment_close_end (ws : str) (bol : bool) :
  forallb is_space ws = true ->
  match_here re_comment_close bol (ws ++ lit "-->") = Some [].
Proof.
  intros H.
  change (match_here re_comment_close bol (ws ++ lit "-->"))
    with (match_spaces 0 bol (ws ++ lit "-->")
            (fun b s' =>
               rmatch (RSeq (RChr "-") (RSeq (RChr "-")
                            (RSeq (RChr ">") REol)))
                      b s' (fun _ rest => Some rest))).
  apply match_spaces_0_run; [ exact H | reflexivity | reflexivity ].
Qed.

(** [/\s*-->$/] on a text that ends with whitespace and [-->] after a
    character that is not whitespace: the match is that whitespace and
    the marker. *)
Lemma exec_from_comment_close_spaces (t ws : str) :
  forallb is_space ws = true ->
  forall bol before,
    ends_with_space t = false ->
    exec_from re_comment_close bol before (t ++ ws ++ lit "-->")
    = Some (before ++ t, ws ++ lit "-->", []).
Proof.
  intros Hws. induction t as [ | c t' IH]; intros bol before Hend.
  - cbn [app]. rewrite app_nil_r.
    destruct (ws ++ lit "-->") as [ | x l] eqn:E.
    + destruct ws; discriminate.
    + cbn [exec_from]. rewrite <- E.
      rewrite match_here_comment_close_end by exact Hws.
      unfold matched. rewrite Nat.sub_0_r, firstn_all. reflexivity.
  - change ((c :: t') ++ ws ++ lit "-->")
      with (c :: (t' ++ ws ++ lit "-->")).
    cbn [exec_from].
    change (c :: t' ++ ws ++ lit "-->")
      with ((c :: t') ++ ws ++ lit "-->").
    rewrite match_here_comment_close_before by exact Hend.
    rewrite IH by (eapply ends_with_space_tail; exact Hend).
    now rewrite <- app_assoc.
Qed.

(** X20. [removeComment] unwraps a comment whatever the whitespace
    inside its markers: of [<!--], whitespace, a text [body] without
    whitespace at its ends, whitespace and [-->] it leaves [body].
    The caret moves left by the length of [<!--] and of the
    whitespace after it; when [body] is empty that is all the
    whitespace of the comment. *)
Theorem removeComment_unwraps :
  forall (ws1 body ws2 : str) (caret_pos : Z),
    forallb is_space ws1 = true ->
    forallb is_space ws2 = true ->
    starts_with_space body = false ->
    ends_with_space body = false ->
    let comment := lit "<!--" ++ ws1 ++ body ++ ws2 ++ lit "-->" in
    fst (removeComment comment caret_pos) = body
    /\ (body <> [] ->
        snd (removeComment comment caret_pos)
        = caret_pos - 4 - js_length ws1)
    /\ (body = [] ->
        snd (removeComment comment caret_pos)
        = caret_pos - 4 - js_length ws1 - js_length ws2).
Proof.
  intros ws1 body ws2 caret_pos H1 H2 Hs He comment. subst comment.
  unfold removeComment. rewrite exec_comment_open.
  rewrite strip_leading_space_app by exact H1.
  destruct body as [ | c t].
  - cbn [app]. rewrite strip_leading_space_app by exact H2.
    change (strip_leading_space (lit "-->")) with (lit "-->").
    cbv beta iota zeta. cbn [app fst snd].
    change (replace re_comment_close (fun _ => []) (lit "-->"))
      with (@nil ascii).
    split; [ reflexivity | ]. split; [ congruence | intros _ ].
    rewrite matched_length
      by (rewrite !length_app; change (length (lit "-->")) with 3%nat;
          lia).
    unfold js_length. rewrite !length_app.
    change (length (lit "-->")) with 3%nat.
    change (length (lit "<!--")) with 4%nat. lia.
  - rewrite strip_leading_space_id by exact Hs.
    cbv beta iota zeta. cbn [app fst snd].
    change (c :: t ++ ws2 ++ lit "-->")
      with ((c :: t) ++ ws2 ++ lit "-->").
    split; [ | split; [ intros _ | discriminate ] ].
    + unfold replace, exec.
      rewrite exec_from_comment_close_spaces by assumption.
      cbv beta iota. cbn [app]. now rewrite app_nil_r.
    + rewrite matched_length
        by (rewrite !length_app; lia).
      unfold js_length. rewrite !length_app.
      change (length (lit "<!--")) with 4%nat. lia.
Qed.

Lemma removeComment_unwraps_tight :
  removeComment (lit "<!--x  -->") 10 = (lit "x", 6).
Proof.
  destruct (@removeComment_unwraps [] (lit "x") (lit "  ") 10)
    as [Hf [Hs _]];
    [ reflexivity | reflexivity | reflexivity | reflexivity | ].
  specialize (Hs ltac:(discriminate)).
  cbn [app] in Hf, Hs.
  destruct (removeComment (lit "<!--" ++ lit "x" ++ lit "  " ++ lit "-->")
                          10) as [u v].
  simpl in Hf, Hs. now subst.
Defined.

(** ** The shape of a comment toggle *)

Lemma toggleHTMLComment_target (env : zen_env) (st : state) :
  toggleHTMLComment env st
  = let rng := comment_target env st in
    let content := getContent (editor st) in
    let caret_pos := getCaretPos (editor st) in
    if negb (r_start rng =? r_end rng) then
      if hasMatch content (lit "<!--") (r_start rng) then
        let (new_content, caret_pos) :=
          removeComment (substring content (r_start rng) (r_end rng))
                        caret_pos in
        Some (put_comment env st new_content rng caret_pos)
      else
        match find_comment content (r_start rng) with
        | None => None
        | Some (comment_start, comment_end) =>
            if (comment_start <? r_start rng) && (comment_end >? r_end rng)
            then
              let rng := mkRange comment_start comment_end in
              let (new_content, caret_pos) :=
                removeComment
                  (substring content comment_start comment_end)
                  caret_pos in
              Some (put_comment env st new_content rng caret_pos)
            else
              let new_content :=
                lit "<!-- "
                ++ replace_all re_inner_markers []
                     (substring content (r_start rng) (r_end rng))
                ++ lit " -->" in
              Some (put_comment env st new_content rng (caret_pos + 5))
        end
    else Some (false, st).
Proof. reflexivity. Qed.

(** X21. On a target range that is not empty and does not start
    before the text, [toggleHTMLComment] returns [true] after exactly
    three editor calls: the caret is set to the start of a range, that
    range is replaced, and the caret is set again. The range replaced
    is the target range, or a range that starts before it and ends
    after it (the comment around it). The selection and the cached
    match are left as they were. *)
Theorem toggleHTMLComment_replaces_target_or_comment :
  forall (env : zen_env) (st : state),
    let rng := comment_target env st in
    r_start rng <> r_end rng ->
    0 <= r_start rng ->
    exists value a b caret_pos,
      toggleHTMLComment env st
      = Some (true,
              with_editor st
                (setCaretPos caret_pos
                   (replaceContent value a b
                      (setCaretPos a (editor st)))))
      /\ ((a = r_start rng /\ b = r_end rng)
          \/ (a < r_start rng /\ r_end rng < b)).
Proof.
  intros env st rng Hne Hpos.
  rewrite toggleHTMLComment_target. cbv zeta. fold rng.
  apply Z.eqb_neq in Hne. rewrite Hne. cbn [negb].
  destruct (hasMatch (getContent (editor st)) (lit "<!--") (r_start rng)).
  - destruct (removeComment
                (substring (getContent (editor st)) (r_start rng)
                           (r_end rng))
                (getCaretPos (editor st))) as [nc cp].
    eexists. exists (r_start rng), (r_end rng). eexists.
    split; [ reflexivity | now left ].
  - destruct (find_comment_total (getContent (editor st)) Hpos)
      as [cs [ce Hf]].
    rewrite Hf.
    destruct ((cs <? r_start rng) && (ce >? r_end rng)) eqn:Hc.
    + apply andb_prop in Hc. destruct Hc as [H1 H2].
      apply Z.ltb_lt in H1. apply Z.gtb_lt in H2.
      destruct (removeComment
                  (substring (getContent (editor st)) cs ce)
                  (getCaretPos (editor st))) as [nc cp].
      eexists. exists cs, ce. eexists.
      split; [ reflexivity | right; lia ].
    + eexists. exists (r_start rng), (r_end rng). eexists.
      split; [ reflexivity | now left ].
Qed.

Lemma toggleHTMLComment_replaces_target_or_comment_b :
  exists value a b caret_pos,
    toggleHTMLComment no_tags_env
      (state_on "html" "<!-- a <b>x</b> c --> d" 7 15 9)
    = Some (true,
            with_editor (state_on "html" "<!-- a <b>x</b> c --> d" 7 15 9)
              (setCaretPos caret_pos
                 (replaceContent value a b
                    (setCaretPos a
                       (editor (state_on "html"
                                  "<!-- a <b>x</b> c --> d" 7 15 9))))))
    /\ ((a = 7 /\ b = 15) \/ (a < 7 /\ 15 < b)).
Proof.
  apply (@toggleHTMLComment_replaces_target_or_comment no_tags_env
           (state_on "html" "<!-- a <b>x</b> c --> d" 7 15 9)).
  - simpl. lia.
  - simpl. lia.
Defined.

(* ================================================================= *)
(** * The comment toggle on the target range *)

(** ** The three branches, on the target range *)

Section TargetSteps.
Variable env : zen_env.
Variable st : state.

Let rng := comment_target env st.
Let content := getContent (editor st).
Let caret_pos := getCaretPos (editor st).

Hypothesis target_not_empty : r_start rng <> r_end rng.


Lemma toggleHTMLComment_target_inside :
  forall comment_start comment_end,
    hasMatch content (lit "<!--") (r_start rng) = false ->
    find_comment content (r_start rng)
    = Some (comment_start, comment_end) ->
    comment_start < r_start rng -> comment_end > r_end rng ->
    toggleHTMLComment env st
    = Some (put_comment env st
              (fst (removeComment
                      (substring content comment_start comment_end) 0))
              (mkRange comment_start comment_end)
              (caret_pos
               + snd (removeComment
                        (substring content comment_start comment_end)
                        0))).
Proof.
  intros cs ce Hm Hf H1 H2. rewrite toggleHTMLComment_target. cbv zeta.
  fold rng content caret_pos.
  apply Z.eqb_neq in target_not_empty. rewrite target_not_empty.
  cbn [negb]. rewrite Hm, Hf.
  apply Z.ltb_lt in H1. apply Z.gt_lt, Z.gtb_lt in H2.
  rewrite H1, H2. cbn [andb].
  rewrite removeComment_caret. reflexivity.
Qed.

End TargetSteps.

(** ** The text of a comment *)

Lemma hasMatch_split (content m : str) (i : Z) :
  0 <= i -> m <> [] -> hasMatch content m i = true ->
  exists pre post, content = pre ++ m ++ post /\ js_length pre = i.
Proof.
  intros Hi Hm H.
  pose proof (@hasMatch_bound content m i Hi Hm H) as Hb.
  pose proof (@hasMatch_prefix content m i Hi H) as Hp.
  exists (firstn (Z.to_nat i) content),
         (skipn (length m) (skipn (Z.to_nat i) content)).
  split.
  - rewrite <- (firstn_skipn (Z.to_nat i) content) at 1. f_equal.
    rewrite <- (firstn_skipn (length m) (skipn (Z.to_nat i) content)) at 1.
    f_equal. exact Hp.
  - unfold js_length in *. rewrite length_firstn. lia.
Qed.

(** A comment-open marker at [cs] and a comment-close marker at [p],
    which does not overlap it, cut the text in three. *)
Lemma comment_split (content : str) (cs p : Z) :
  0 <= cs -> cs + 4 <= p ->
  hasMatch content (lit "<!--") cs = true ->
  hasMatch content (lit "-->") p = true ->
  exists pre mid post,
    content = pre ++ (lit "<!--" ++ mid ++ lit "-->") ++ post
    /\ js_length pre = cs
    /\ js_length pre + js_length (lit "<!--" ++ mid ++ lit "-->") = p + 3.
Proof.
  intros Hcs Hp Ho Hc.
  destruct (@hasMatch_split content (lit "-->") p ltac:(lia)
              ltac:(discriminate) Hc) as [A [post [E HA]]].
  assert (Ho' : hasMatch A (lit "<!--") cs = true).
  { unfold hasMatch, substr in *.
    destruct (Z.ltb_spec cs 0) as [Hneg | _]; [ lia | ].
    rewrite E in Ho. rewrite skipn_app, firstn_app in Ho.
    change (Z.to_nat (js_length (lit "<!--"))) with 4%nat in *.
    replace (4 - length (skipn (Z.to_nat cs) A))%nat with 0%nat in Ho
      by (rewrite length_skipn; unfold js_length in HA; lia).
    cbn [firstn] in Ho. now rewrite app_nil_r in Ho. }
  destruct (@hasMatch_split A (lit "<!--") cs Hcs ltac:(discriminate) Ho')
    as [pre [mid [EA Hpre]]].
  exists pre, mid, post. split; [ | split ].
  - rewrite E, EA. now rewrite <- !app_assoc.
  - exact Hpre.
  - rewrite EA in HA. unfold js_length in *.
    rewrite !length_app in *. simpl length in *. lia.
Qed.

Lemma leading_space_strip (s : str) :
  s = leading_space s ++ strip_leading_space s.
Proof.
  induction s as [ | c t IH]; [ reflexivity | ]. simpl.
  destruct (is_space c); [ simpl; now f_equal | reflexivity ].
Qed.

Lemma forallb_rev (P : ascii -> bool) (s : str) :
  forallb P s = true -> forallb P (rev s) = true.
Proof.
  intros H. apply forallb_forall. intros x Hx.
  apply in_rev in Hx. revert x Hx. now apply forallb_forall.
Qed.

(** A text is whitespace, a text without whitespace at its ends, and
    whitespace. *)
Lemma trim_split (s : str) :
  exists ws1 body ws2,
    s = ws1 ++ body ++ ws2
    /\ forallb is_space ws1 = true
    /\ forallb is_space ws2 = true
    /\ starts_with_space body = false
    /\ ends_with_space body = false.
Proof.
  set (r := strip_leading_space s).
  exists (leading_space s),
         (rev (strip_leading_space (rev r))),
         (rev (leading_space (rev r))).
  assert (Er : r = rev (strip_leading_space (rev r))
                   ++ rev (leading_space (rev r))).
  { rewrite <- rev_app_distr, <- leading_space_strip.
    now rewrite rev_involutive. }
  split; [ | split; [ | split; [ | split ] ] ].
  - rewrite <- Er. apply leading_space_strip.
  - apply leading_space_all.
  - apply forallb_rev, leading_space_all.
  - pose proof (strip_leading_space_head s) as Hh. fold r in Hh.
    rewrite Er in Hh.
    destruct (rev (strip_leading_space (rev r))); [ reflexivity | ].
    exact Hh.
  - unfold ends_with_space. rewrite rev_involutive.
    apply strip_leading_space_head.
Qed.

(** What [removeComment] leaves of a comment: the text between the
    markers without the whitespace at its ends. *)
Lemma removeComment_trims (ws1 body ws2 : str) (caret_pos : Z) :
  forallb is_space ws1 = true ->
  forallb is_space ws2 = true ->
  starts_with_space body = false ->
  ends_with_space body = false ->
  fst (removeComment (lit "<!--" ++ ws1 ++ body ++ ws2 ++ lit "-->")
                     caret_pos) = body
  /\ (body <> [] ->
      snd (removeComment (lit "<!--" ++ ws1 ++ body ++ ws2 ++ lit "-->")
                         caret_pos)
      = caret_pos - 4 - js_length ws1)
  /\ (body = [] ->
      snd (removeComment (lit "<!--" ++ ws1 ++ body ++ ws2 ++ lit "-->")
                         caret_pos)
      = caret_pos - 4 - js_length ws1 - js_length ws2).
Proof.
  intros H1 H2 Hs He.
  unfold removeComment. rewrite exec_comment_open.
  rewrite strip_leading_space_app by exact H1.
  destruct body as [ | c t].
  - cbn [app]. rewrite strip_leading_space_app by exact H2.
    change (strip_leading_space (lit "-->")) with (lit "-->").
    cbv beta iota zeta. cbn [app fst snd].
    change (replace re_comment_close (fun _ => []) (lit "-->"))
      with (@nil ascii).
    split; [ reflexivity | ]. split; [ congruence | intros _ ].
    rewrite matched_length
      by (rewrite !length_app; change (length (lit "-->")) with 3%nat;
          lia).
    unfold js_length. rewrite !length_app.
    change (length (lit "-->")) with 3%nat.
    change (length (lit "<!--")) with 4%nat. lia.
  - rewrite strip_leading_space_id by exact Hs.
    cbv beta iota zeta. cbn [app fst snd].
    change (c :: t ++ ws2 ++ lit "-->")
      with ((c :: t) ++ ws2 ++ lit "-->").
    split; [ | split; [ intros _ | discriminate ] ].
    + unfold replace, exec.
      rewrite exec_from_comment_close_spaces by assumption.
      cbv beta iota. cbn [app]. now rewrite app_nil_r.
    + rewrite matched_length
        by (rewrite !length_app; lia).
      unfold js_length. rewrite !length_app.
      change (length (lit "<!--")) with 4%nat. lia.
Qed.

(** ** Inside a comment *)

(** C4. The target range, the selection or the tag pair found at the
    caret when the selection is empty, is not empty and does not start
    with a comment-open marker; [cs] is the nearest comment-open marker
    to the left of its start and [p] the first comment-close marker to
    the right of [cs], so that the comment spans [cs, p + 3). When the
    comment starts before the target range and ends after it, the
    range becomes the whole comment and the comment is removed, nothing
    is wrapped: in place of [cs, p + 3) the editor receives the text of
    the comment without its markers. When the two markers do not
    overlap, that text is what stands between the markers, the
    whitespace at its two ends apart, and the caret moves left by the
    length of [<!--] and of the whitespace after it. *)
Theorem toggleHTMLComment_inside_comment_removes :
  forall (env : zen_env) (st : state) (cs p : Z),
    let rng := comment_target env st in
    let content := getContent (editor st) in
    let caret := getCaretPos (editor st) in
    r_start rng <> r_end rng ->
    hasMatch content (lit "<!--") (r_start rng) = false ->
    0 <= cs < r_start rng ->
    hasMatch content (lit "<!--") cs = true ->
    (forall j, cs < j < r_start rng ->
               hasMatch content (lit "<!--") j = false) ->
    cs < p ->
    hasMatch content (lit "-->") p = true ->
    (forall j, cs < j < p -> hasMatch content (lit "-->") j = false) ->
    r_end rng < p + 3 ->
    exists new_content caret_pos,
      removeComment (substring content cs (p + 3)) caret
      = (new_content, caret_pos)
      /\ toggleHTMLComment env st
         = Some (true,
                 with_editor st
                   (setCaretPos caret_pos
                      (replaceContent
                         (unindent env (setCaretPos cs (editor st))
                                   new_content)
                         cs (p + 3)
                         (setCaretPos cs (editor st)))))
      /\ (cs + 4 <= p ->
          exists ws1 body ws2,
            substring content cs (p + 3)
            = lit "<!--" ++ ws1 ++ body ++ ws2 ++ lit "-->"
            /\ forallb is_space ws1 = true
            /\ forallb is_space ws2 = true
            /\ starts_with_space body = false
            /\ ends_with_space body = false
            /\ new_content = body
            /\ (body <> [] -> caret_pos = caret - 4 - js_length ws1)
            /\ (body = [] ->
                caret_pos = caret - 4 - js_length ws1 - js_length ws2)).
Proof.
  intros env st cs p rng content caret Hne Hstart Hcs Hopen Hnone Hp
         Hclose Hnone' Hend.
  pose proof (find_comment_around _ Hcs Hopen Hnone Hp Hclose Hnone')
    as Hfind.
  exists (fst (removeComment (substring content cs (p + 3)) 0)),
         (caret + snd (removeComment (substring content cs (p + 3)) 0)).
  split; [ apply removeComment_caret | ]. split.
  - subst rng content caret.
    rewrite (@toggleHTMLComment_target_inside env st Hne cs (p + 3)
               Hstart Hfind) by lia.
    reflexivity.
  - intros Hlen.
    destruct (@comment_split content cs p ltac:(lia) Hlen Hopen Hclose)
      as [pre [mid [post [E [Hpre Hpost]]]]].
    destruct (trim_split mid)
      as [ws1 [body [ws2 [Emid [H1 [H2 [Hs He]]]]]]].
    exists ws1, body, ws2.
    assert (Hsub : substring content cs (p + 3)
                   = lit "<!--" ++ ws1 ++ body ++ ws2 ++ lit "-->").
    { rewrite E, <- Hpre, <- Hpost, substring_mid, Emid.
      now rewrite <- !app_assoc. }
    rewrite Hsub.
    destruct (@removeComment_trims ws1 body ws2 0 H1 H2 Hs He)
      as [Hf [Hc1 Hc2]].
    split; [ reflexivity | ].
    split; [ exact H1 | ]. split; [ exact H2 | ].
    split; [ exact Hs | ]. split; [ exact He | ].
    split; [ exact Hf | ]. split.
    + intros Hb. rewrite (Hc1 Hb). lia.
    + intros Hb. rewrite (Hc2 Hb). lia.
Qed.

Lemma toggleHTMLComment_inside_comment_removes_b :
  let st := state_on "html" "<!-- a <b>x</b> c --> d" 9 9 9 in
  comment_target b_env st = mkRange 7 15
  /\ option_map (fun r => (fst r, ed_content (editor (snd r)),
                           ed_caret (editor (snd r))))
                (toggleHTMLComment b_env st)
     = Some (true, lit "a <b>x</b> c d", 4).
Proof.
  split; [ reflexivity | ].
  destruct (@toggleHTMLComment_inside_comment_removes b_env
              (state_on "html" "<!-- a <b>x</b> c --> d" 9 9 9) 0 18)
    as [new_content [caret_pos [Hrm [Htoggle Hbody]]]].
  - discriminate.
  - reflexivity.
  - split; [ discriminate | reflexivity ].
  - reflexivity.
  - intros j Hj.
    change (r_start (comment_target b_env
              (state_on "html" "<!-- a <b>x</b> c --> d" 9 9 9)))
      with 7 in Hj.
    assert (Hc : j = 1 \/ j = 2 \/ j = 3 \/ j = 4 \/ j = 5 \/ j = 6) by lia.
    repeat (destruct Hc as [Hc | Hc]; [ subst j; reflexivity | ]).
    subst j; reflexivity.
  - lia.
  - reflexivity.
  - intros j Hj.
    assert (Hc : j = 1 \/ j = 2 \/ j = 3 \/ j = 4 \/ j = 5 \/ j = 6
                 \/ j = 7 \/ j = 8 \/ j = 9 \/ j = 10 \/ j = 11 \/ j = 12
                 \/ j = 13 \/ j = 14 \/ j = 15 \/ j = 16 \/ j = 17) by lia.
    repeat (destruct Hc as [Hc | Hc]; [ subst j; reflexivity | ]).
    subst j; reflexivity.
  - reflexivity.
  - rewrite Htoggle.
    destruct (Hbody ltac:(lia))
      as [ws1 [body [ws2 [Hsub [_ [_ [_ [_ [Hnew _]]]]]]]]].
    vm_compute in Hrm.
    injection Hrm as <- <-. reflexivity.
Defined.

(** ** Wrapping and unwrapping *)
















